(** * image2svg: the tool page's state handlers and the SVG sanitizer

    A shallow embedding of [src/app/layout.tsx] (the [Home] component):
    the React state cells become one record that every handler maps to a
    new record, the asynchronous operations (file read, preset fetch,
    conversion request, debounce timer) are split at their suspension
    points into a start step and a settle step, and [cleanSvgResponse]
    is modelled on strings with a small engine for
    [String.prototype.replace] with a global pattern. *)

From Stdlib Require Import String Ascii PrimFloat Arith Lia List.
From stdpp Require Import base option strings gmap.

Open Scope string_scope.

(* ===================================================================== *)
(** ** Global replacement *)
(* ===================================================================== *)

Module Replace.

(** A pattern is given by what it matches at the head of a text: the
    length of the match that starts there, if there is one. *)
Definition matcher := string -> option nat.

Definition matches (re : matcher) (s : string) : bool :=
  match re s with Some _ => true | None => false end.

(** [s.replace(re, rep)] for a pattern [re] with the [g] flag: one scan
    from left to right; where [re] matches, [rep] is emitted and the scan
    resumes after the match; elsewhere the character is copied.  [skip]
    counts the characters of the current match still to be passed over.
    An empty match emits [rep] and copies the next character. *)
Fixpoint replace_from (re : matcher) (rep : string) (skip : nat) (s : string)
  : string :=
  match s with
  | EmptyString =>
      match skip with
      | 0 => if matches re EmptyString then rep else EmptyString
      | S _ => EmptyString
      end
  | String c s' =>
      match skip with
      | S k => replace_from re rep k s'
      | 0 =>
          match re s with
          | Some 0 => rep ++ String c (replace_from re rep 0 s')
          | Some (S n) => rep ++ replace_from re rep n s'
          | None => String c (replace_from re rep 0 s')
          end
      end
  end.

Definition replace_all (re : matcher) (rep : string) (s : string) : string :=
  replace_from re rep 0 s.

(** Some position of [s] (the end included) where [re] matches. *)
Fixpoint has_match (re : matcher) (s : string) : bool :=
  match s with
  | EmptyString => matches re EmptyString
  | String _ s' => matches re s || has_match re s'
  end.

(** The text after the literal [p] when [s] starts with it. *)
Fixpoint strip_prefix (p s : string) : option string :=
  match p with
  | EmptyString => Some s
  | String a p' =>
      match s with
      | EmptyString => None
      | String b s' => if Ascii.eqb a b then strip_prefix p' s' else None
      end
  end.

(** A literal pattern. *)
Definition lit (p : string) : matcher :=
  fun s => match strip_prefix p s with
           | Some _ => Some (String.length p)
           | None => None
           end.

(** Offset of the first occurrence of the literal [p] in [s]. *)
Fixpoint index_of (p s : string) : option nat :=
  match strip_prefix p s with
  | Some _ => Some 0
  | None =>
      match s with
      | EmptyString => None
      | String _ s' => option_map S (index_of p s')
      end
  end.

Definition dquote : ascii := "034"%char.

(** Offset of the first double quote of [s]. *)
Fixpoint quote_at (s : string) : option nat :=
  match s with
  | EmptyString => None
  | String c s' => if Ascii.eqb c dquote then Some 0 else option_map S (quote_at s')
  end.

(** The literal [open], then a greedy run of characters other than the
    double quote, then a double quote.  The run cannot pass a quote, so
    the match ends at the first quote after [open], and there is no match
    when no quote follows. *)
Definition quoted_after (open : string) : matcher :=
  fun s => match strip_prefix open s with
           | Some rest =>
               match quote_at rest with
               | Some n => Some (String.length open + n + 1)
               | None => None
               end
           | None => None
           end.

(** The literal [open], then a lazy run of any characters (line breaks
    included), then the literal [close]: the match ends with the first
    [close] after [open]. *)
Definition lazy_between (open close : string) : matcher :=
  fun s => match strip_prefix open s with
           | Some rest =>
               match index_of close rest with
               | Some n => Some (String.length open + n + String.length close)
               | None => None
               end
           | None => None
           end.



(** [s] without its first [n] characters. *)
Fixpoint sdrop (n : nat) (s : string) : string :=
  match n, s with
  | 0, _ => s
  | S _, EmptyString => EmptyString
  | S n', String _ s' => sdrop n' s'
  end.

(** The literal [p] is the head of [s]. *)
Definition starts_with (p s : string) : bool :=
  match strip_prefix p s with Some _ => true | None => false end.

(** The character [c] does not occur in [s]. *)
Fixpoint avoids (c : ascii) (s : string) : bool :=
  match s with
  | EmptyString => true
  | String a s' => negb (Ascii.eqb a c) && avoids c s'
  end.

(** A pattern whose matches are never empty and lie within the text. *)
Definition proper (re : matcher) : Prop :=
  forall s n, re s = Some n -> 0 < n <= String.length s.

End Replace.

(* ===================================================================== *)
(** ** The sanitizer *)
(* ===================================================================== *)

Import Replace.

Definition quoted (s : string) : string :=
  String dquote (s ++ String dquote EmptyString).

(** [/ns0:/g] *)
Definition ns0_prefix : string := "ns0:".
(** the opening of the [xmlns:ns0] declaration, up to its first quote *)
Definition xmlns_open : string := "xmlns:ns0=" ++ String dquote EmptyString.
(** the black fill declaration and the white one that replaces it *)
Definition black_fill : string := "fill=" ++ quoted "#000000".
Definition white_fill : string := "fill=" ++ quoted "#ffffff".
(** the tags that delimit a metadata block *)
Definition metadata_open : string := "<metadata>".
Definition metadata_close : string := "</metadata>".

Definition ns0_re : matcher := lit ns0_prefix.
Definition xmlns_re : matcher := quoted_after xmlns_open.
Definition black_re : matcher := lit black_fill.
Definition metadata_re : matcher := lazy_between metadata_open metadata_close.

Definition strip_ns0 : string -> string := replace_all ns0_re EmptyString.
Definition strip_xmlns : string -> string := replace_all xmlns_re EmptyString.
Definition recolor : string -> string := replace_all black_re white_fill.
Definition strip_metadata : string -> string := replace_all metadata_re EmptyString.

(** The fill pass with [k] characters still to be passed over. *)
Abbreviation recolor_from := (replace_from black_re white_fill).

Definition cleanSvgResponse (svgText : string) : string :=
  let clean := strip_ns0 svgText in
  let clean := strip_xmlns clean in
  let clean := recolor clean in
  let clean := strip_metadata clean in
  clean.


(** None of the four patterns occurs in [s]. *)
Definition pattern_free (s : string) : bool :=
  negb (has_match ns0_re s) && negb (has_match xmlns_re s)
  && negb (has_match black_re s) && negb (has_match metadata_re s).








(* ===================================================================== *)
(** ** Parameters, presets and the page state *)
(* ===================================================================== *)

(** A JavaScript [number] is a binary64 float. *)
Definition number : Set := float.

Record ProcessorParams : Set := mkParams {
  threshold : number;
  denoise : number;
  turdsize : number;
  alphamax : number;
  optimize_tolerance : number;
  inverted : bool;
  fill_holes : bool;
  show_debug : option bool   (* optional field: [None] when it is not set *)
}.

Record Preset : Set := mkPreset {
  preset_name : string;
  preset_description : string;
  preset_params : ProcessorParams
}.

Inductive PresetKey : Set := clean | photo | laser | custom.

(** The string a [PresetKey] is; the catalog is indexed by it. *)
Definition preset_key_name (k : PresetKey) : string :=
  match k with
  | clean => "clean"
  | photo => "photo"
  | laser => "laser"
  | custom => "custom"
  end.

#[global] Instance PresetKey_eq_dec : EqDecision PresetKey.
Proof. solve_decision. Defined.

Definition DEFAULT_PARAMS : ProcessorParams := {|
  threshold := 128%float;
  denoise := 0%float;
  turdsize := 10%float;
  alphamax := 1%float;
  optimize_tolerance := 0x1.999999999999ap-3%float;   (* the double written 0.2 *)
  inverted := false;
  fill_holes := false;
  show_debug := None
|}.

(** [keyof ProcessorParams] *)
Inductive ParamKey : Set :=
  | k_threshold | k_denoise | k_turdsize | k_alphamax | k_optimize_tolerance
  | k_inverted | k_fill_holes | k_show_debug.

#[global] Instance ParamKey_eq_dec : EqDecision ParamKey.
Proof. solve_decision. Defined.

(** The declared type of each field. *)
Definition field_ty (k : ParamKey) : Set :=
  match k with
  | k_threshold | k_denoise | k_turdsize | k_alphamax | k_optimize_tolerance => number
  | k_inverted | k_fill_holes | k_show_debug => bool
  end.

(** What reading a property of the parameter object yields. *)
Inductive JsValue : Set :=
  | JNumber (x : number)
  | JBoolean (b : bool)
  | JUndefined.

Definition to_js (k : ParamKey) : field_ty k -> JsValue :=
  match k with
  | k_threshold | k_denoise | k_turdsize | k_alphamax | k_optimize_tolerance => JNumber
  | k_inverted | k_fill_holes | k_show_debug => JBoolean
  end.

Definition get_field (k : ParamKey) (p : ProcessorParams) : JsValue :=
  match k with
  | k_threshold => JNumber (threshold p)
  | k_denoise => JNumber (denoise p)
  | k_turdsize => JNumber (turdsize p)
  | k_alphamax => JNumber (alphamax p)
  | k_optimize_tolerance => JNumber (optimize_tolerance p)
  | k_inverted => JBoolean (inverted p)
  | k_fill_holes => JBoolean (fill_holes p)
  | k_show_debug =>
      match show_debug p with Some b => JBoolean b | None => JUndefined end
  end.

(** The object [{ ...prev, [key]: value }]. *)
Definition set_field (key : ParamKey) : field_ty key -> ProcessorParams -> ProcessorParams :=
  match key with
  | k_threshold => fun v prev =>
      mkParams v (denoise prev) (turdsize prev) (alphamax prev)
        (optimize_tolerance prev) (inverted prev) (fill_holes prev) (show_debug prev)
  | k_denoise => fun v prev =>
      mkParams (threshold prev) v (turdsize prev) (alphamax prev)
        (optimize_tolerance prev) (inverted prev) (fill_holes prev) (show_debug prev)
  | k_turdsize => fun v prev =>
      mkParams (threshold prev) (denoise prev) v (alphamax prev)
        (optimize_tolerance prev) (inverted prev) (fill_holes prev) (show_debug prev)
  | k_alphamax => fun v prev =>
      mkParams (threshold prev) (denoise prev) (turdsize prev) v
        (optimize_tolerance prev) (inverted prev) (fill_holes prev) (show_debug prev)
  | k_optimize_tolerance => fun v prev =>
      mkParams (threshold prev) (denoise prev) (turdsize prev) (alphamax prev)
        v (inverted prev) (fill_holes prev) (show_debug prev)
  | k_inverted => fun v prev =>
      mkParams (threshold prev) (denoise prev) (turdsize prev) (alphamax prev)
        (optimize_tolerance prev) v (fill_holes prev) (show_debug prev)
  | k_fill_holes => fun v prev =>
      mkParams (threshold prev) (denoise prev) (turdsize prev) (alphamax prev)
        (optimize_tolerance prev) (inverted prev) v (show_debug prev)
  | k_show_debug => fun v prev =>
      mkParams (threshold prev) (denoise prev) (turdsize prev) (alphamax prev)
        (optimize_tolerance prev) (inverted prev) (fill_holes prev) (Some v)
  end.

(** The [useState] cells of [Home]. *)
Record State : Type := mkState {
  originalImage : option string;
  vectorSvg : option string;
  isProcessing : bool;
  params : ProcessorParams;
  presets : gmap string Preset;
  selectedPreset : PresetKey;
  showAdvanced : bool;
  isDragging : bool
}.

Definition init_state : State := {|
  originalImage := None;
  vectorSvg := None;
  isProcessing := false;
  params := DEFAULT_PARAMS;
  presets := ∅;
  selectedPreset := clean;
  showAdvanced := false;
  isDragging := false
|}.

Definition setOriginalImage (v : option string) (s : State) : State :=
  mkState v (vectorSvg s) (isProcessing s) (params s) (presets s)
    (selectedPreset s) (showAdvanced s) (isDragging s).
Definition setVectorSvg (v : option string) (s : State) : State :=
  mkState (originalImage s) v (isProcessing s) (params s) (presets s)
    (selectedPreset s) (showAdvanced s) (isDragging s).
Definition setIsProcessing (v : bool) (s : State) : State :=
  mkState (originalImage s) (vectorSvg s) v (params s) (presets s)
    (selectedPreset s) (showAdvanced s) (isDragging s).
Definition setParams (v : ProcessorParams) (s : State) : State :=
  mkState (originalImage s) (vectorSvg s) (isProcessing s) v (presets s)
    (selectedPreset s) (showAdvanced s) (isDragging s).
Definition setPresets (v : gmap string Preset) (s : State) : State :=
  mkState (originalImage s) (vectorSvg s) (isProcessing s) (params s) v
    (selectedPreset s) (showAdvanced s) (isDragging s).
Definition setSelectedPreset (v : PresetKey) (s : State) : State :=
  mkState (originalImage s) (vectorSvg s) (isProcessing s) (params s) (presets s)
    v (showAdvanced s) (isDragging s).
Definition setShowAdvanced (v : bool) (s : State) : State :=
  mkState (originalImage s) (vectorSvg s) (isProcessing s) (params s) (presets s)
    (selectedPreset s) v (isDragging s).
Definition setIsDragging (v : bool) (s : State) : State :=
  mkState (originalImage s) (vectorSvg s) (isProcessing s) (params s) (presets s)
    (selectedPreset s) (showAdvanced s) v.

(** Truthiness of a string, and of a string that may be [null]. *)
Definition truthy (s : string) : bool :=
  match s with EmptyString => false | String _ _ => true end.
Definition truthy_opt (o : option string) : bool :=
  match o with Some s => truthy s | None => false end.

(* ===================================================================== *)
(** ** Parameter store *)
(* ===================================================================== *)

Definition updateParam (key : ParamKey) (value : field_ty key) (s : State) : State :=
  let s := setParams (set_field key value (params s)) s in
  setSelectedPreset custom s.

(** [presets[presetKey]] is read from the catalog of the render the
    handler belongs to; a catalog entry is an object, hence truthy. *)
Definition handlePresetChange (presetKey : PresetKey) (s : State) : State :=
  let catalog := presets s in
  let s := setSelectedPreset presetKey s in
  if decide (presetKey = custom) then s
  else match catalog !! preset_key_name presetKey with
       | Some preset => setParams (preset_params preset) s
       | None => s
       end.

(* ===================================================================== *)
(** ** Image intake *)
(* ===================================================================== *)

Record File : Set := mkFile {
  file_name : string;
  file_type : string   (* the media type the browser reports *)
}.

(** [s.startsWith(p)] *)
Definition startsWith (p s : string) : bool := starts_with p s.

(** [reader.onload] of [processFile]; [result] is [event.target?.result]. *)
Definition reader_onload (result : option string) (s : State) : State :=
  if truthy_opt result then
    let s := setOriginalImage result s in
    setVectorSvg None s
  else s.

(** Each intake handler yields the new state and the file it hands to
    [processFile], which starts reading it. *)
Definition handleImageUpload (files : list File) (s : State) : State * option File :=
  match head files with
  | Some file => (s, Some file)
  | None => (s, None)
  end.

Definition handleDragOver (s : State) : State := setIsDragging true s.
Definition handleDragLeave (s : State) : State := setIsDragging false s.

Definition handleDrop (files : list File) (s : State) : State * option File :=
  let s := setIsDragging false s in
  match head files with
  | Some file =>
      if startsWith "image/" (file_type file) then (s, Some file) else (s, None)
  | None => (s, None)
  end.

(** The remove button. *)
Definition clearImage (s : State) : State :=
  let s := setOriginalImage None s in
  setVectorSvg None s.

(* ===================================================================== *)
(** ** Preset catalog load *)
(* ===================================================================== *)

(** What the console receives. *)
Inductive Thrown : Set :=
  | Rejected                                        (* a rejected promise *)
  | VectorizeFailed (status : nat) (errText : string).   (* the [Error] thrown on a non-ok status *)

Inductive LogEntry : Set :=
  | FailedToLoadPresets (e : Thrown)
  | ErrorProcessingImage (e : Thrown).

(** How the request of [loadPresets] settles: [fetch] rejects, or it
    resolves with a status and a body that parses ([Some]) or not. *)
Inductive PresetsReply : Type :=
  | PresetsFetchRejected
  | PresetsResponse (ok : bool) (json : option (gmap string Preset)).

(** The part of [loadPresets] that runs once the request has settled. *)
Definition loadPresets_settle (r : PresetsReply) (s : State) : State * list LogEntry :=
  match r with
  | PresetsFetchRejected => (s, [FailedToLoadPresets Rejected])
  | PresetsResponse false _ => (s, [])
  | PresetsResponse true None => (s, [FailedToLoadPresets Rejected])
  | PresetsResponse true (Some data) =>
      let s := setPresets data s in
      match data !! "clean" with
      | Some preset => (setParams (preset_params preset) s, [])
      | None => (s, [])
      end
  end.

(* ===================================================================== *)
(** ** Conversion orchestrator *)
(* ===================================================================== *)

(** What a render's [processImage] and timer callback have captured. *)
Record Closure : Set := mkClosure {
  cl_image : option string;
  cl_params : ProcessorParams
}.

Definition closure_of (s : State) : Closure :=
  mkClosure (originalImage s) (params s).

(** How the awaited calls of the [try] block turn out. *)
Inductive Outcome : Set :=
  | BlobFailed                                   (* [fetch(originalImage)] or [blob()] rejects *)
  | FetchRejected                                (* [fetch(apiUrl, ...)] rejects *)
  | ResponseNotOk (status : nat) (errText : option string)   (* [None]: [text()] rejects *)
  | ResponseOk (rawSvg : option string).         (* [None]: [text()] rejects *)

(** The [try] block: the value handed to [setVectorSvg], or what is thrown. *)
Definition try_block (o : Outcome) : Thrown + string :=
  match o with
  | BlobFailed => inl Rejected
  | FetchRejected => inl Rejected
  | ResponseNotOk status (Some errText) => inl (VectorizeFailed status errText)
  | ResponseNotOk _ None => inl Rejected
  | ResponseOk (Some rawSvg) => inr (cleanSvgResponse rawSvg)
  | ResponseOk None => inl Rejected
  end.

(** [processImage] up to its first [await]: the guard and the in-flight
    flag; the request it issues carries the captured image and params. *)
Definition processImage_start (cl : Closure) (s : State) : State * option Closure :=
  if negb (truthy_opt (cl_image cl)) then (s, None)
  else (setIsProcessing true s, Some cl).

(** [processImage] from the settling of its awaits to its end: the rest of
    the [try] block, the [catch] and the [finally]. *)
Definition processImage_settle (o : Outcome) (s : State) : State * list LogEntry :=
  match try_block o with
  | inr cleanSvg =>
      let s := setVectorSvg (Some cleanSvg) s in
      (setIsProcessing false s, [])
  | inl error =>
      (setIsProcessing false s, [ErrorProcessingImage error])
  end.

(** The callback given to [setTimeout]. *)
Definition timer_body (cl : Closure) (s : State) : State * option Closure :=
  if truthy_opt (cl_image cl) then processImage_start cl s else (s, None).

Definition DEBOUNCE_MS : nat := 500.

(* ===================================================================== *)
(** ** The page as an event-driven system *)
(* ===================================================================== *)

(** Identity of the object held in [params]: the effect's dependency
    array is compared with [Object.is], which tells objects apart by
    reference.  The catalog is fetched once, so a preset's params object
    is identified by its key; every field edit allocates a new object. *)
Inductive ObjRef : Set :=
  | RefDefault
  | RefPreset (key : string)
  | RefFresh (n : nat).

#[global] Instance ObjRef_eq_dec : EqDecision ObjRef.
Proof. solve_decision. Defined.

Record World : Type := mkWorld {
  ui : State;
  params_ref : ObjRef;                 (* which object [params] holds *)
  next_ref : nat;                      (* objects allocated by edits so far *)
  clock : nat;                         (* milliseconds since mount *)
  timer : option (nat * Closure);      (* the pending debounce timer: due time, captured render *)
  reads : list File;                   (* file reads in progress *)
  presets_pending : bool;              (* the catalog request has not settled *)
  inflight : list Closure;             (* conversion requests awaiting their reply *)
  sent : list (nat * Closure);         (* every conversion request issued, latest first *)
  svg_source : option string;          (* bookkeeping: the image [vectorSvg] was converted from *)
  console : list LogEntry
}.

(** After mount: both effects have run once. *)
Definition init_world : World := {|
  ui := init_state;
  params_ref := RefDefault;
  next_ref := 0;
  clock := 0;
  timer := Some (DEBOUNCE_MS, closure_of init_state);
  reads := [];
  presets_pending := true;
  inflight := [];
  sent := [];
  svg_source := None;
  console := []
|}.

Inductive Event : Type :=
  | UpdateParam (key : ParamKey) (value : field_ty key)
  | PresetChange (presetKey : PresetKey)
  | ImageUpload (files : list File)
  | DragOver
  | DragLeave
  | Drop (files : list File)
  | ReaderLoad (i : nat) (result : option string)   (* the i-th pending read completes *)
  | ClearImage
  | ToggleAdvanced
  | PresetsSettle (r : PresetsReply)
  | ConversionSettle (i : nat) (o : Outcome)        (* the i-th pending request settles *)
  | Elapse (dt : nat).                              (* [dt] ms pass with no other event *)

Definition with_ui (s : State) (w : World) : World :=
  mkWorld s (params_ref w) (next_ref w) (clock w) (timer w) (reads w)
    (presets_pending w) (inflight w) (sent w)
    (match vectorSvg s with None => None | Some _ => svg_source w end)
    (console w).

Definition with_params_ref (r : ObjRef) (w : World) : World :=
  mkWorld (ui w) r (next_ref w) (clock w) (timer w) (reads w)
    (presets_pending w) (inflight w) (sent w) (svg_source w) (console w).

Definition with_timer (t : option (nat * Closure)) (w : World) : World :=
  mkWorld (ui w) (params_ref w) (next_ref w) (clock w) t (reads w)
    (presets_pending w) (inflight w) (sent w) (svg_source w) (console w).

Definition start_read (file : option File) (w : World) : World :=
  mkWorld (ui w) (params_ref w) (next_ref w) (clock w) (timer w)
    (reads w ++ match file with Some f => [f] | None => [] end)
    (presets_pending w) (inflight w) (sent w) (svg_source w) (console w).

Definition log (entries : list LogEntry) (w : World) : World :=
  mkWorld (ui w) (params_ref w) (next_ref w) (clock w) (timer w) (reads w)
    (presets_pending w) (inflight w) (sent w) (svg_source w)
    (console w ++ entries).

(** The debounce effect, [useEffect(..., [params, originalImage, processImage])]:
    when a dependency of the committed render differs from the previous
    one, the cleanup clears the pending timer and the effect sets a new
    one, [DEBOUNCE_MS] from now, whose callback belongs to the new render.
    [processImage] is memoised on [originalImage] and [params], so it
    changes exactly when one of them does. *)
Definition commit (before after : World) : World :=
  if decide (params_ref before = params_ref after
             /\ originalImage (ui before) = originalImage (ui after))
  then after
  else with_timer (Some (clock after + DEBOUNCE_MS, closure_of (ui after))) after.

(** The handler of each event, before the render is committed. *)
Definition handle (e : Event) (w : World) : World :=
  match e with
  | UpdateParam key value =>
      mkWorld (updateParam key value (ui w)) (RefFresh (next_ref w)) (S (next_ref w))
        (clock w) (timer w) (reads w) (presets_pending w) (inflight w) (sent w)
        (svg_source w) (console w)
  | PresetChange presetKey =>
      let w' := with_ui (handlePresetChange presetKey (ui w)) w in
      if decide (presetKey = custom) then w'
      else match presets (ui w) !! preset_key_name presetKey with
           | Some _ => with_params_ref (RefPreset (preset_key_name presetKey)) w'
           | None => w'
           end
  | ImageUpload files =>
      let '(s, file) := handleImageUpload files (ui w) in
      start_read file (with_ui s w)
  | DragOver => with_ui (handleDragOver (ui w)) w
  | DragLeave => with_ui (handleDragLeave (ui w)) w
  | Drop files =>
      let '(s, file) := handleDrop files (ui w) in
      start_read file (with_ui s w)
  | ReaderLoad i result =>
      match reads w !! i with
      | Some _ =>
          mkWorld (reader_onload result (ui w)) (params_ref w) (next_ref w) (clock w)
            (timer w) (delete i (reads w)) (presets_pending w) (inflight w) (sent w)
            (match vectorSvg (reader_onload result (ui w)) with
             | None => None | Some _ => svg_source w end)
            (console w)
      | None => w
      end
  | ClearImage => with_ui (clearImage (ui w)) w
  | ToggleAdvanced => with_ui (setShowAdvanced (negb (showAdvanced (ui w))) (ui w)) w
  | PresetsSettle r =>
      if presets_pending w then
        let '(s, entries) := loadPresets_settle r (ui w) in
        let applied :=
          match r with
          | PresetsResponse true (Some data) =>
              match data !! "clean" with Some _ => true | None => false end
          | _ => false
          end in
        mkWorld s (if applied then RefPreset "clean" else params_ref w) (next_ref w)
          (clock w) (timer w) (reads w) false (inflight w) (sent w)
          (svg_source w) (console w ++ entries)
      else w
  | ConversionSettle i o =>
      match inflight w !! i with
      | Some request =>
          let '(s, entries) := processImage_settle o (ui w) in
          mkWorld s (params_ref w) (next_ref w) (clock w) (timer w) (reads w)
            (presets_pending w) (delete i (inflight w)) (sent w)
            (match try_block o with
             | inr _ => cl_image request
             | inl _ => svg_source w
             end)
            (console w ++ entries)
      | None => w
      end
  | Elapse dt =>
      match timer w with
      | Some (due, cl) =>
          if decide (due <= clock w + dt) then
            let '(s, request) := timer_body cl (ui w) in
            mkWorld s (params_ref w) (next_ref w) (clock w + dt) None (reads w)
              (presets_pending w)
              (inflight w ++ match request with Some r => [r] | None => [] end)
              (match request with Some r => [(due, r)] | None => [] end ++ sent w)
              (svg_source w) (console w)
          else
            mkWorld (ui w) (params_ref w) (next_ref w) (clock w + dt) (timer w) (reads w)
              (presets_pending w) (inflight w) (sent w) (svg_source w) (console w)
      | None =>
          mkWorld (ui w) (params_ref w) (next_ref w) (clock w + dt) None (reads w)
            (presets_pending w) (inflight w) (sent w) (svg_source w) (console w)
      end
  end.

Definition step (w : World) (e : Event) : World := commit w (handle e w).

Definition run (w : World) (es : list Event) : World := fold_left step es w.

(** The image shown and the vector shown belong together: a vector is
    shown only for the image it was converted from. *)
Definition paired (w : World) : Prop :=
  match vectorSvg (ui w) with
  | None => True
  | Some _ => svg_source w = originalImage (ui w)
  end.

(** An event that delivers the reply of a request issued for another
    image than the one now shown. *)
Definition stale_reply (w : World) (e : Event) : Prop :=
  match e with
  | ConversionSettle i _ =>
      match inflight w !! i with
      | Some request => cl_image request <> originalImage (ui w)
      | None => False
      end
  | _ => False
  end.

(* ===================================================================== *)
(** ** What the page renders *)
(* ===================================================================== *)

(** The right panel: the chain of conditionals on [isProcessing],
    [params.show_debug && vectorSvg] and [vectorSvg]. *)
Inductive ResultPanel : Set :=
  | Spinner
  | DebugSource (svg : string)     (* the markup as text *)
  | RenderedSvg (svg : string)     (* the markup as inner HTML *)
  | Placeholder.

Definition truthy_flag (o : option bool) : bool :=
  match o with Some b => b | None => false end.

Definition result_panel (s : State) : ResultPanel :=
  if isProcessing s then Spinner
  else if truthy_flag (show_debug (params s)) && truthy_opt (vectorSvg s)
  then DebugSource (default EmptyString (vectorSvg s))
  else if truthy_opt (vectorSvg s)
  then RenderedSvg (default EmptyString (vectorSvg s))
  else Placeholder.

(** The left panel: the drop zone while [!originalImage], the preview
    with its remove button otherwise. *)
Inductive SourcePanel : Set :=
  | DropZone (highlighted : bool)
  | Preview (src : string).

Definition source_panel (s : State) : SourcePanel :=
  if negb (truthy_opt (originalImage s)) then DropZone (isDragging s)
  else Preview (default EmptyString (originalImage s)).

(** The download button of the header: rendered under [originalImage &&],
    with [disabled={!vectorSvg}]. *)
Inductive Button : Set := Hidden | Disabled | Enabled.

Definition download_button (s : State) : Button :=
  if truthy_opt (originalImage s) then
    if negb (truthy_opt (vectorSvg s)) then Disabled else Enabled
  else Hidden.

(** The description under the preset buttons. *)
Definition preset_description_shown (s : State) : option string :=
  if decide (selectedPreset s = custom) then None
  else preset_description <$> presets s !! preset_key_name (selectedPreset s).

(** The file that [handleDownload] hands to the browser. *)
Record Download : Set := mkDownload {
  dl_content : string;
  dl_type : string;
  dl_filename : string
}.

Definition handleDownload (s : State) : option Download :=
  if negb (truthy_opt (vectorSvg s)) then None
  else Some (mkDownload (default EmptyString (vectorSvg s))
               "image/svg+xml" "laservector-output.svg").

(* ===================================================================== *)
(** ** Endpoints *)
(* ===================================================================== *)

Definition LOCAL_API : string := "http://localhost:7860".

(** [loadPresets]: the base is [env || LOCAL_API]. *)
Definition presets_url (env : option string) : string :=
  let apiUrl := if truthy_opt env then default EmptyString env else LOCAL_API in
  apiUrl ++ "/presets".

(** [processImage]: a conditional on [env] with the path in both arms. *)
Definition vectorize_url (env : option string) : string :=
  if truthy_opt env then default EmptyString env ++ "/vectorize"
  else "http://localhost:7860/vectorize".

(* ===================================================================== *)
(** ** The sign-in form ([components/Login.tsx]) *)
(* ===================================================================== *)

Record LoginState : Set := mkLogin {
  email : string;
  password : string;
  error : string;
  loading : bool
}.

Definition init_login : LoginState := mkLogin "" "" "" false.

Definition setEmail (v : string) (s : LoginState) : LoginState :=
  mkLogin v (password s) (error s) (loading s).
Definition setPassword (v : string) (s : LoginState) : LoginState :=
  mkLogin (email s) v (error s) (loading s).
Definition setError (v : string) (s : LoginState) : LoginState :=
  mkLogin (email s) (password s) v (loading s).
Definition setLoading (v : bool) (s : LoginState) : LoginState :=
  mkLogin (email s) (password s) (error s) v.

Definition ACCESS_DENIED : string := "Credenciales inválidas. Acceso denegado.".

(** [handleLogin] up to its [await]: the flags, and the credentials it
    passes to [signInWithEmailAndPassword]. *)
Definition handleLogin_start (s : LoginState) : LoginState * (string * string) :=
  let credentials := (email s, password s) in
  let s := setLoading true s in
  let s := setError EmptyString s in
  (s, credentials).

(** [handleLogin] after the [await]: [signedIn] tells whether the promise
    was fulfilled; the second component is what goes to the console. *)
Definition handleLogin_settle (signedIn : bool) (s : LoginState)
  : LoginState * list Thrown :=
  if signedIn then (setLoading false s, [])
  else
    let s := setError ACCESS_DENIED s in
    (setLoading false s, [Rejected]).

(** The red banner, [error && ...], and the submit button. *)
Definition error_banner (s : LoginState) : option string :=
  if truthy (error s) then Some (error s) else None.
Definition submit_disabled (s : LoginState) : bool := loading s.

(* ===================================================================== *)
(** ** Worlds reached from mount *)
(* ===================================================================== *)

Definition reachable (w : World) : Prop := exists es, w = run init_world es.

(** The pending timer's callback belongs to the current render. *)
Definition timer_current (w : World) : Prop :=
  match timer w with
  | Some (_, cl) => cl = closure_of (ui w)
  | None => True
  end.

(** The object that [params] holds, when it is a catalog object, is the
    catalog's entry under that key. *)
Definition ref_consistent (w : World) : Prop :=
  match params_ref w with
  | RefPreset key =>
      exists preset, presets (ui w) !! key = Some preset
                     /\ params (ui w) = preset_params preset
  | _ => True
  end.

(** Until the catalog request settles the catalog is empty. *)
Definition catalog_unloaded (w : World) : Prop :=
  presets_pending w = true -> presets (ui w) = ∅.

(** While the in-flight flag is up, some request awaits its reply. *)
Definition spinner_has_request (w : World) : Prop :=
  isProcessing (ui w) = true -> inflight w <> [].

(** The object in [params] was allocated before the next edit's object:
    holds at mount and is kept by every event. *)
Definition refs_allocated (w : World) : Prop :=
  match params_ref w with
  | RefFresh n => n < next_ref w
  | _ => True
  end.

(** What every world reached from mount satisfies. *)
Definition coherent (w : World) : Prop :=
  refs_allocated w /\ timer_current w /\ ref_consistent w /\ catalog_unloaded w.

(* ===================================================================== *)
(** ** Sample data for the concrete runs below *)
(* ===================================================================== *)

Definition sample_preset (t : number) : Preset :=
  mkPreset "Clean" "Flat graphics" (set_field k_threshold t DEFAULT_PARAMS).

Definition sample_catalog : gmap string Preset :=
  {[ "clean" := sample_preset 140%float ]}.

Definition pdf_file : File := mkFile "drawing.pdf" "application/pdf".
Definition pdf_data_url : string := "data:application/pdf;base64,JVBERi0xLjQK".

Definition png_a : File := mkFile "a.png" "image/png".
Definition png_b : File := mkFile "b.png" "image/png".

(** Image A is loaded and its conversion is requested; A is removed and
    image B is loaded while that request is still pending. *)
Definition stale_reply_trace : list Event :=
  [ ImageUpload [png_a];
    ReaderLoad 0 (Some "data:image/png;base64,QQ==");
    Elapse 500;
    ClearImage;
    ImageUpload [png_b];
    ReaderLoad 0 (Some "data:image/png;base64,Qg==") ].

(** A response as the service writes it: prefixed names, the namespace
    declaration, a black fill, and (in the second) a metadata block over
    two lines. *)
Definition svg_plain : string :=
  "<ns0:svg " ++ xmlns_open ++ "http://www.w3.org/2000/svg" ++ String dquote " "
  ++ black_fill ++ "><ns0:path d=" ++ quoted "M0 0" ++ "/></ns0:svg>".

Definition svg_with_metadata : string :=
  "<ns0:svg " ++ xmlns_open ++ "http://www.w3.org/2000/svg" ++ String dquote " "
  ++ black_fill ++ "><ns0:metadata>Created by potrace
</ns0:metadata><ns0:path d=" ++ quoted "M0 0" ++ "/></ns0:svg>".


(** Image A is loaded and, after the debounce delay, its conversion is
    requested. *)
Definition image_a : string := "data:image/png;base64,QQ==".
Definition loaded_world : World :=
  run init_world [ImageUpload [png_a]; ReaderLoad 0 (Some image_a)].
Definition converting_world : World := step loaded_world (Elapse 500).

(** The events that lead from mount to a loaded catalog and a loaded
    image. *)
Definition catalog_and_image_events : list Event :=
  [ PresetsSettle (PresetsResponse true (Some sample_catalog));
    ImageUpload [png_a];
    ReaderLoad 0 (Some image_a) ].

(* ===================================================================== *)
(** ** Parameter store: properties *)
(* ===================================================================== *)

Section ParameterStore.

Implicit Types (s : State) (p : ProcessorParams).

Lemma get_set_field_same key (value : field_ty key) p :
  get_field key (set_field key value p) = to_js key value.
Proof. destruct key; reflexivity. Qed.

Lemma get_set_field_other k key (value : field_ty key) p :
  k <> key -> get_field k (set_field key value p) = get_field k p.
Proof. destruct key, k; intros Hne; try reflexivity; congruence. Qed.

Lemma get_set_field k key (value : field_ty key) p :
  get_field k (set_field key value p)
  = if decide (k = key) then to_js key value else get_field k p.
Proof.
  destruct (decide (k = key)) as [->|Hne].
  - apply get_set_field_same.
  - by apply get_set_field_other.
Qed.

(** Neither handler of the parameter store touches the image or the vector. *)
Lemma handlePresetChange_frame (presetKey : PresetKey) s :
  originalImage (handlePresetChange presetKey s) = originalImage s
  /\ vectorSvg (handlePresetChange presetKey s) = vectorSvg s.
Proof.
  unfold handlePresetChange; cbv zeta.
  destruct (decide (presetKey = custom)); [done|].
  by destruct (presets s !! preset_key_name presetKey).
Qed.

(** C1, as the claim states it, fails: an unknown key is not a no-op.  With
    the catalog still empty, choosing [photo] moves the selection. *)
Lemma handlePresetChange_unknown_key_not_noop :
  presets init_state !! preset_key_name photo = None
  /\ selectedPreset (handlePresetChange photo init_state) = photo
  /\ handlePresetChange photo init_state <> init_state.
Proof. repeat split; [done..| discriminate]. Qed.

(** C1 (amended): [handlePresetChange] always sets the selection to the
    key; it replaces the whole parameter set by the catalog's params for
    that key when the key is not [custom] and the catalog has an entry for
    it, and leaves the parameter set as it was otherwise; no other state
    cell changes. *)
Theorem handlePresetChange_spec (presetKey : PresetKey) s :
  let s' := handlePresetChange presetKey s in
  selectedPreset s' = presetKey
  /\ params s' =
       match presets s !! preset_key_name presetKey with
       | Some preset =>
           if decide (presetKey = custom) then params s else preset_params preset
       | None => params s
       end
  /\ presets s' = presets s
  /\ originalImage s' = originalImage s
  /\ vectorSvg s' = vectorSvg s
  /\ isProcessing s' = isProcessing s
  /\ showAdvanced s' = showAdvanced s
  /\ isDragging s' = isDragging s.
Proof.
  unfold handlePresetChange; cbv zeta.
  destruct (decide (presetKey = custom)) as [->|Hne].
  - destruct (presets s !! preset_key_name custom); by repeat split.
  - simpl. destruct (presets s !! preset_key_name presetKey); by repeat split.
Qed.

(** C10: choosing [custom] only moves the selection to [custom]; the
    parameter set and every other state cell stay as they were, whatever
    the catalog holds (an entry named custom included). *)
Theorem handlePresetChange_custom s :
  let s' := handlePresetChange custom s in
  selectedPreset s' = custom
  /\ params s' = params s
  /\ presets s' = presets s
  /\ originalImage s' = originalImage s
  /\ vectorSvg s' = vectorSvg s
  /\ isProcessing s' = isProcessing s
  /\ showAdvanced s' = showAdvanced s
  /\ isDragging s' = isDragging s.
Proof. by repeat split. Qed.

(** C2: [updateParam] writes the given value to the given field, keeps
    every other field of the parameter set, sets the selection to
    [custom] whatever the value (also when it is the value the selected
    preset has for that field), and touches no other state cell. *)
Theorem updateParam_spec (key : ParamKey) (value : field_ty key) s :
  let s' := updateParam key value s in
  selectedPreset s' = custom
  /\ (forall k, get_field k (params s')
                = if decide (k = key) then to_js key value else get_field k (params s))
  /\ (forall preset,
        presets s !! preset_key_name (selectedPreset s) = Some preset ->
        to_js key value = get_field key (preset_params preset) ->
        selectedPreset s' = custom)
  /\ presets s' = presets s
  /\ originalImage s' = originalImage s
  /\ vectorSvg s' = vectorSvg s
  /\ isProcessing s' = isProcessing s
  /\ showAdvanced s' = showAdvanced s
  /\ isDragging s' = isDragging s.
Proof.
  cbv zeta. repeat split; try done.
  intros k. apply get_set_field.
Qed.

End ParameterStore.

(* ===================================================================== *)
(** ** Preset catalog load: properties *)
(* ===================================================================== *)

Section PresetCatalog.

Lemma loadPresets_settle_frame (r : PresetsReply) (s : State) :
  originalImage (fst (loadPresets_settle r s)) = originalImage s
  /\ vectorSvg (fst (loadPresets_settle r s)) = vectorSvg s.
Proof.
  destruct r as [|[] [data|]]; simpl; try done.
  by destruct (data !! "clean").
Qed.

(** C8: the catalog load applies the clean preset without selecting it.
    After a field edit made while the catalog request was pending, the
    load discards the edit and installs the clean preset's params, but the
    selection stays [custom] and no description is shown; choosing clean
    by hand, the sibling path, gives the same params with the selection
    on clean and its description shown. *)
Theorem loadPresets_after_edit_selection_custom :
  let edited := updateParam k_threshold 90%float init_state in
  let loaded := fst (loadPresets_settle (PresetsResponse true (Some sample_catalog)) edited) in
  let chosen := handlePresetChange clean loaded in
  selectedPreset edited = custom
  /\ params loaded = preset_params (sample_preset 140%float)
  /\ selectedPreset loaded = custom
  /\ selectedPreset loaded <> clean
  /\ preset_description_shown loaded = None
  /\ params chosen = params loaded
  /\ selectedPreset chosen = clean
  /\ preset_description_shown chosen = Some "Flat graphics".
Proof. cbv zeta. repeat split; try discriminate; vm_compute; reflexivity. Qed.

(** What the settling of the catalog request does to the state: with an
    ok status and a body that parses, the body becomes the catalog and, if
    it has a clean entry, that entry's params become the current
    parameter set; the selection is not touched.  On every other settling
    the state is unchanged. *)
Theorem loadPresets_settle_spec (r : PresetsReply) (s : State) :
  let s' := fst (loadPresets_settle r s) in
  selectedPreset s' = selectedPreset s
  /\ match r with
     | PresetsResponse true (Some data) =>
         presets s' = data
         /\ params s' = match data !! "clean" with
                        | Some preset => preset_params preset
                        | None => params s
                        end
     | _ => s' = s
     end
  /\ (match r with PresetsResponse true (Some _) => False | _ => True end ->
      fst (loadPresets_settle r init_state) = init_state
      /\ presets (fst (loadPresets_settle r init_state)) = ∅
      /\ params (fst (loadPresets_settle r init_state)) = DEFAULT_PARAMS)
  /\ originalImage s' = originalImage s
  /\ vectorSvg s' = vectorSvg s
  /\ isProcessing s' = isProcessing s
  /\ showAdvanced s' = showAdvanced s
  /\ isDragging s' = isDragging s.
Proof.
  cbv zeta.
  destruct r as [|[] [data|]]; simpl; try by repeat split.
  destruct (data !! "clean"); simpl; repeat split; try done.
Qed.

End PresetCatalog.

(* ===================================================================== *)
(** ** Image intake: properties *)
(* ===================================================================== *)

Section ImageIntake.

(** A dropped file whose type is not an image type is ignored: only the
    drag flag is lowered and no read is started. *)
Lemma handleDrop_non_image (file : File) (rest : list File) (s : State) :
  startsWith "image/" (file_type file) = false ->
  handleDrop (file :: rest) s = (setIsDragging false s, None).
Proof. unfold handleDrop; simpl. by intros ->. Qed.

Lemma handleDrop_non_image_world (file : File) (rest : list File) (w : World) :
  startsWith "image/" (file_type file) = false ->
  let w' := step w (Drop (file :: rest)) in
  originalImage (ui w') = originalImage (ui w)
  /\ vectorSvg (ui w') = vectorSvg (ui w)
  /\ isDragging (ui w') = false
  /\ reads w' = reads w
  /\ inflight w' = inflight w
  /\ sent w' = sent w
  /\ timer w' = timer w
  /\ console w' = console w.
Proof.
  intros Hty. cbv zeta. unfold step, handle.
  rewrite (handleDrop_non_image _ _ _ Hty).
  unfold commit; simpl. rewrite decide_True by done. simpl.
  rewrite app_nil_r. by repeat split.
Qed.

(** C6: the selection path does not look at the media type.  A selected
    PDF is handed to [processFile]; once read, its data URL becomes
    [originalImage] and [vectorSvg] is reset, while the same file dropped
    on the drop zone is ignored. *)
Theorem handleImageUpload_accepts_non_image :
  startsWith "image/" (file_type pdf_file) = false
  /\ handleImageUpload [pdf_file] init_state = (init_state, Some pdf_file)
  /\ handleDrop [pdf_file] init_state = (init_state, None)
  /\ (let w := run init_world [ImageUpload [pdf_file]; ReaderLoad 0 (Some pdf_data_url)] in
      originalImage (ui w) = Some pdf_data_url
      /\ originalImage (ui w) <> originalImage (ui init_world)
      /\ timer w = Some (DEBOUNCE_MS, mkClosure (Some pdf_data_url) DEFAULT_PARAMS))
  /\ (let w := run init_world [Drop [pdf_file]] in
      originalImage (ui w) = None /\ reads w = []).
Proof. vm_compute. repeat split; discriminate. Qed.

End ImageIntake.

(* ===================================================================== *)
(** ** Conversion orchestrator: properties *)
(* ===================================================================== *)

Section Conversion.

Lemma try_block_success (o : Outcome) (cleanSvg : string) :
  try_block o = inr cleanSvg <->
  exists rawSvg, o = ResponseOk (Some rawSvg) /\ cleanSvg = cleanSvgResponse rawSvg.
Proof.
  split.
  - destruct o as [| |status [errText|]|[rawSvg|]]; simpl; intros H; try discriminate.
    exists rawSvg. split; congruence.
  - intros (rawSvg & -> & ->). reflexivity.
Qed.

(** C7: a run of [processImage] that passes its guard raises
    [isProcessing] before it issues its request; however its awaits settle
    (the reply is read, the status is not ok, or something throws),
    [isProcessing] is lowered; and on every failure [vectorSvg] keeps the
    value it had, the error going to the console only. *)
Theorem processImage_flag_and_failure :
  (forall cl s,
      truthy_opt (cl_image cl) = true ->
      let '(s', request) := processImage_start cl s in
      isProcessing s' = true /\ request = Some cl
      /\ vectorSvg s' = vectorSvg s /\ originalImage s' = originalImage s)
  /\ (forall o s, isProcessing (fst (processImage_settle o s)) = false)
  /\ (forall o s error,
        try_block o = inl error ->
        let '(s', entries) := processImage_settle o s in
        vectorSvg s' = vectorSvg s
        /\ originalImage s' = originalImage s
        /\ params s' = params s
        /\ selectedPreset s' = selectedPreset s
        /\ entries = [ErrorProcessingImage error])
  /\ (forall o, match o with
                | ResponseOk (Some _) => exists cleanSvg, try_block o = inr cleanSvg
                | _ => exists error, try_block o = inl error
                end)
  /\ (forall rawSvg s,
        let '(s', entries) := processImage_settle (ResponseOk (Some rawSvg)) s in
        vectorSvg s' = Some (cleanSvgResponse rawSvg) /\ entries = []).
Proof.
  split; [|split; [|split; [|split]]].
  - intros cl s Hcl. unfold processImage_start. rewrite Hcl. simpl. by repeat split.
  - intros o s. unfold processImage_settle. by destruct (try_block o).
  - intros o s error Hfail. unfold processImage_settle. rewrite Hfail.
    by repeat split.
  - intros o. destruct o as [| |status [errText|]|[rawSvg|]]; simpl; eauto.
  - intros rawSvg s. simpl. by split.
Qed.

Lemma processImage_flag_and_failure_witness :
  isProcessing (fst (processImage_start (closure_of (ui loaded_world)) (ui loaded_world)))
  = true
  /\ (let s := ui converting_world in
      let '(s', entries) := processImage_settle (ResponseNotOk 500 (Some "boom")) s in
      vectorSvg s' = vectorSvg s
      /\ isProcessing s' = false
      /\ entries = [ErrorProcessingImage (VectorizeFailed 500 "boom")]).
Proof.
  destruct processImage_flag_and_failure as (Hstart & Hflag & Hfail & _).
  split.
  - pose proof (Hstart (closure_of (ui loaded_world)) (ui loaded_world) eq_refl) as H.
    destruct (processImage_start _ _) as [s' request]. exact (proj1 H).
  - cbv zeta.
    pose proof (Hfail (ResponseNotOk 500 (Some "boom")) (ui converting_world) _ eq_refl) as H.
    pose proof (Hflag (ResponseNotOk 500 (Some "boom")) (ui converting_world)) as H'.
    destruct (processImage_settle _ _) as [s' entries].
    destruct H as (Hv & _ & _ & _ & He). by repeat split.
Defined.

End Conversion.

(* ===================================================================== *)
(** ** Image and vector stay paired: properties *)
(* ===================================================================== *)

Section Pairing.

Lemma paired_commit (w w' : World) : paired (commit w w') <-> paired w'.
Proof. unfold commit. by destruct (decide _). Qed.

Lemma paired_handle (w : World) (e : Event) :
  paired w -> ~ stale_reply w e -> paired (handle e w).
Proof.
  unfold paired, stale_reply. intros Hp Hfresh.
  destruct e as [key value|presetKey|files| | |files|i result| | |r|i o|dt]; simpl.
  - exact Hp.
  - destruct (handlePresetChange_frame presetKey (ui w)) as [Hi Hv].
    assert (Hgoal : forall w',
      w' = with_ui (handlePresetChange presetKey (ui w)) w ->
      match vectorSvg (ui w') with
      | Some _ => svg_source w' = originalImage (ui w')
      | None => True
      end).
    { intros w' ->. simpl. rewrite Hv, Hi.
      destruct (vectorSvg (ui w)); [exact Hp | exact I]. }
    destruct (decide (presetKey = custom)); [by apply Hgoal|].
    destruct (presets (ui w) !! preset_key_name presetKey); [|by apply Hgoal].
    simpl. specialize (Hgoal _ eq_refl). exact Hgoal.
  - unfold handleImageUpload. destruct (head files); simpl;
      destruct (vectorSvg (ui w)); done.
  - destruct (vectorSvg (ui w)); done.
  - destruct (vectorSvg (ui w)); done.
  - unfold handleDrop. destruct (head files) as [file|]; simpl.
    + destruct (startsWith "image/" (file_type file)); simpl;
        destruct (vectorSvg (ui w)); done.
    + destruct (vectorSvg (ui w)); done.
  - destruct (reads w !! i); [|exact Hp]. simpl.
    unfold reader_onload. destruct (truthy_opt result); simpl; [exact I|].
    destruct (vectorSvg (ui w)); done.
  - exact I.
  - destruct (vectorSvg (ui w)); done.
  - destruct (presets_pending w); [|exact Hp].
    destruct (loadPresets_settle_frame r (ui w)) as [Hi Hv].
    destruct (loadPresets_settle r (ui w)) as [s entries]. simpl in *.
    rewrite Hv, Hi. exact Hp.
  - destruct (inflight w !! i) as [request|]; [|exact Hp].
    unfold processImage_settle.
    destruct (try_block o) as [error|cleanSvg]; simpl.
    + exact Hp.
    + destruct (decide (cl_image request = originalImage (ui w))); [done|].
      by exfalso; apply Hfresh.
  - destruct (timer w) as [[due cl]|]; [|exact Hp].
    destruct (decide (due <= clock w + dt)); [|exact Hp].
    unfold timer_body, processImage_start.
    destruct (truthy_opt (cl_image cl)); simpl; exact Hp.
Qed.

(** The two who-wrote-what facts the pairing rests on. *)
Lemma reader_onload_loaded (result : option string) (s : State) :
  truthy_opt result = true ->
  originalImage (reader_onload result s) = result
  /\ vectorSvg (reader_onload result s) = None.
Proof. unfold reader_onload. by intros ->. Qed.

(** C5, as the claim states it, fails on the last clause: the reply of a
    request issued for an image that has since been removed and replaced
    is still written to [vectorSvg].  The pairing holds up to that reply
    and is broken by it. *)
Lemma stale_reply_breaks_pairing :
  let before := run init_world stale_reply_trace in
  let after := step before (ConversionSettle 0 (ResponseOk (Some "<svg/>"))) in
  paired before
  /\ originalImage (ui after) = Some "data:image/png;base64,Qg=="
  /\ vectorSvg (ui after) = Some "<svg/>"
  /\ svg_source after = Some "data:image/png;base64,QQ=="
  /\ ~ paired after.
Proof.
  vm_compute. repeat split; try discriminate.
Qed.

(** C5 (amended): a completed file read with a non-empty result stores it
    in [originalImage] and leaves [vectorSvg] absent, whatever the state
    was; the remove button empties both; and every event keeps the image
    and the vector paired, except the reply of a conversion request that
    was issued for another image than the one now shown (requests are not
    cancelled, so such a reply is still written). *)
Theorem image_and_vector_pairing :
  (forall result s,
      truthy_opt result = true ->
      originalImage (reader_onload result s) = result
      /\ vectorSvg (reader_onload result s) = None)
  /\ (forall s, originalImage (clearImage s) = None /\ vectorSvg (clearImage s) = None)
  /\ (forall w e, paired w -> ~ stale_reply w e -> paired (step w e)).
Proof.
  split; [exact reader_onload_loaded|split].
  - by intros s.
  - intros w e Hp Hfresh. unfold step. apply paired_commit. by apply paired_handle.
Qed.

Lemma image_and_vector_pairing_witness :
  paired (step converting_world (ConversionSettle 0 (ResponseOk (Some svg_plain))))
  /\ vectorSvg (reader_onload (Some image_a) (ui converting_world)) = None.
Proof.
  destruct image_and_vector_pairing as (Hload & _ & Hstep).
  split.
  - apply Hstep.
    + vm_compute. exact I.
    + vm_compute. intros H. by apply H.
  - by apply Hload.
Defined.

End Pairing.

(* ===================================================================== *)
(** ** Debounce: properties *)
(* ===================================================================== *)

Section Debounce.

Lemma refs_allocated_init : refs_allocated init_world.
Proof. exact I. Qed.

Lemma refs_allocated_commit (w w' : World) :
  refs_allocated (commit w w') <-> refs_allocated w'.
Proof. unfold commit. by destruct (decide _). Qed.

Lemma refs_allocated_step (w : World) (e : Event) :
  refs_allocated w -> refs_allocated (step w e).
Proof.
  intros Hw. unfold step. apply refs_allocated_commit.
  unfold refs_allocated in *.
  destruct e as [key value|presetKey|files| | |files|i result| | |r|i o|dt]; simpl;
    try exact Hw.
  - lia.
  - destruct (decide (presetKey = custom)); [exact Hw|].
    by destruct (presets (ui w) !! preset_key_name presetKey).
  - by destruct (handleImageUpload files (ui w)).
  - by destruct (handleDrop files (ui w)).
  - by destruct (reads w !! i).
  - destruct (presets_pending w); [|exact Hw].
    destruct (loadPresets_settle r (ui w)).
    destruct r as [|[] [data|]]; simpl; try exact Hw.
    by destruct (data !! "clean").
  - destruct (inflight w !! i); [|exact Hw].
    by destruct (processImage_settle o (ui w)).
  - destruct (timer w) as [[due cl]|]; [|exact Hw].
    destruct (decide (due <= clock w + dt)); [|exact Hw].
    by destruct (timer_body cl (ui w)).
Qed.

(** A field edit always re-arms the timer: the params object is new. *)
Lemma updateParam_rearms (w : World) key (value : field_ty key) :
  refs_allocated w ->
  step w (UpdateParam key value)
  = mkWorld (updateParam key value (ui w)) (RefFresh (next_ref w)) (S (next_ref w))
      (clock w)
      (Some (clock w + DEBOUNCE_MS, closure_of (updateParam key value (ui w))))
      (reads w) (presets_pending w) (inflight w) (sent w) (svg_source w) (console w).
Proof.
  intros Hw. unfold step, commit; simpl.
  rewrite decide_False; [reflexivity|].
  intros [Href _]. unfold refs_allocated in Hw. rewrite Href in Hw. lia.
Qed.

(** An event re-arms the timer exactly when it changes a dependency of
    the effect: the object in [params] or the value of [originalImage]. *)
Lemma dependency_change_rearms (w : World) (e : Event) :
  params_ref (handle e w) <> params_ref w
  \/ originalImage (ui (handle e w)) <> originalImage (ui w) ->
  timer (step w e)
  = Some (clock (handle e w) + DEBOUNCE_MS, closure_of (ui (handle e w))).
Proof.
  intros Hne. unfold step, commit.
  rewrite decide_False; [reflexivity|].
  intros [Href Himg]. destruct Hne as [Hne|Hne]; by apply Hne.
Qed.

Lemma no_dependency_change_keeps_timer (w : World) (e : Event) :
  params_ref (handle e w) = params_ref w ->
  originalImage (ui (handle e w)) = originalImage (ui w) ->
  timer (step w e) = timer (handle e w).
Proof.
  intros Href Himg. unfold step, commit. by rewrite decide_True.
Qed.

End Debounce.

(* ===================================================================== *)
(** ** Global replacement: properties *)
(* ===================================================================== *)

Section ReplaceFacts.

Implicit Types (re : matcher) (s t rep p q : string) (k n : nat) (c : ascii).

Lemma string_app_nil_l s : EmptyString ++ s = s.
Proof. reflexivity. Qed.

Lemma string_app_cons c s t : String c s ++ t = String c (s ++ t).
Proof. reflexivity. Qed.

Lemma string_app_assoc s t p : (s ++ t) ++ p = s ++ (t ++ p).
Proof.
  induction s as [|c s IH]; [reflexivity|].
  rewrite !string_app_cons. by rewrite IH.
Qed.

Lemma string_app_nil_r s : s ++ EmptyString = s.
Proof.
  induction s as [|c s IH]; [reflexivity|].
  rewrite string_app_cons. by rewrite IH.
Qed.

Lemma string_length_app s t :
  String.length (s ++ t) = String.length s + String.length t.
Proof.
  induction s as [|c s IH]; [reflexivity|].
  rewrite string_app_cons. simpl. by rewrite IH.
Qed.

Lemma strip_prefix_Some p s t : strip_prefix p s = Some t -> s = p ++ t.
Proof.
  revert s. induction p as [|a p IH]; intros s; simpl.
  - by intros [= ->].
  - destruct s as [|b s]; [discriminate|].
    destruct (Ascii.eqb_spec a b) as [->|]; [|discriminate].
    intros H. by rewrite (IH _ H).
Qed.

Lemma strip_prefix_cons a p b s :
  strip_prefix (String a p) (String b s)
  = if Ascii.eqb a b then strip_prefix p s else None.
Proof. reflexivity. Qed.

Lemma strip_prefix_app p t : strip_prefix p (p ++ t) = Some t.
Proof.
  induction p as [|a p IH]; simpl; [reflexivity|].
  by rewrite Ascii.eqb_refl.
Qed.

Lemma matches_true re s : matches re s = true <-> exists n, re s = Some n.
Proof.
  unfold matches. destruct (re s); split; eauto; try discriminate.
  by intros [? ?].
Qed.

Lemma matches_false re s : matches re s = false <-> re s = None.
Proof. unfold matches. by destruct (re s). Qed.

Lemma lit_Some p s n : lit p s = Some n -> n = String.length p /\ exists t, s = p ++ t.
Proof.
  unfold lit. destruct (strip_prefix p s) as [t|] eqn:Hp; [|discriminate].
  intros [= <-]. split; [reflexivity|]. exists t. by apply strip_prefix_Some.
Qed.

Lemma lit_proper a p : proper (lit (String a p)).
Proof.
  intros s n H. apply lit_Some in H as [-> [t ->]].
  rewrite string_length_app. simpl. lia.
Qed.

Lemma quoted_after_proper a p : proper (quoted_after (String a p)).
Proof.
  intros s n. unfold quoted_after.
  destruct (strip_prefix (String a p) s) as [rest|] eqn:Hp; [|discriminate].
  apply strip_prefix_Some in Hp as ->.
  destruct (quote_at rest) as [m|] eqn:Hq; [|discriminate].
  intros [= <-]. rewrite string_length_app.
  assert (m < String.length rest); [|simpl; lia].
  clear -Hq. revert m Hq. induction rest as [|c rest IH]; intros m; simpl; [discriminate|].
  destruct (Ascii.eqb c dquote); [intros [= <-]; lia|].
  destruct (quote_at rest) as [m'|]; [|discriminate].
  intros [= <-]. specialize (IH _ eq_refl). lia.
Qed.

Lemma index_of_bound p s n :
  index_of p s = Some n -> n + String.length p <= String.length s.
Proof.
  revert n. induction s as [|c s IH]; intros n.
  - simpl. destruct (strip_prefix p "") as [t|] eqn:Hp; [|discriminate].
    intros [= <-]. apply strip_prefix_Some in Hp.
    apply (f_equal String.length) in Hp. rewrite string_length_app in Hp. simpl in *. lia.
  - cbn [index_of]. destruct (strip_prefix p (String c s)) as [t|] eqn:Hp.
    + intros [= <-]. apply strip_prefix_Some in Hp.
      apply (f_equal String.length) in Hp. rewrite string_length_app in Hp. lia.
    + destruct (index_of p s) as [m|]; [|discriminate].
      intros [= <-]. specialize (IH _ eq_refl). simpl. lia.
Qed.

Lemma lazy_between_proper a p close : proper (lazy_between (String a p) close).
Proof.
  intros s n. unfold lazy_between.
  destruct (strip_prefix (String a p) s) as [rest|] eqn:Hp; [|discriminate].
  apply strip_prefix_Some in Hp as ->.
  destruct (index_of close rest) as [m|] eqn:Hi; [|discriminate].
  intros [= <-]. apply index_of_bound in Hi.
  rewrite string_length_app. simpl. lia.
Qed.

Lemma proper_nonempty re : proper re -> re EmptyString = None.
Proof.
  intros Hre. destruct (re "") as [n|] eqn:H; [|reflexivity].
  apply Hre in H. simpl in H. lia.
Qed.

Lemma proper_not_zero re s : proper re -> re s <> Some 0.
Proof. intros Hre H. apply Hre in H. lia. Qed.

Lemma replace_from_match re rep c s n :
  re (String c s) = Some (S n) ->
  replace_from re rep 0 (String c s) = rep ++ replace_from re rep n s.
Proof. intros H. cbn [replace_from]. by rewrite H. Qed.

Lemma replace_from_no_match re rep c s :
  re (String c s) = None ->
  replace_from re rep 0 (String c s) = String c (replace_from re rep 0 s).
Proof. intros H. cbn [replace_from]. by rewrite H. Qed.

(** A text without a match is left as it is. *)
Lemma replace_all_no_match re rep s :
  has_match re s = false -> replace_all re rep s = s.
Proof.
  unfold replace_all. induction s as [|c s IH]; simpl.
  - by intros ->.
  - intros [Hm Hs]%orb_false_iff. apply matches_false in Hm. rewrite Hm.
    by rewrite IH.
Qed.

(** Deleting matches never lengthens the text... *)
Lemma delete_from_length re k s :
  proper re ->
  String.length (replace_from re EmptyString k s) <= String.length s - k.
Proof.
  intros Hre. revert k. induction s as [|c s IH]; intros k.
  - simpl. destruct k; [|simpl; lia].
    rewrite (proj2 (matches_false re "")) by by apply proper_nonempty. simpl. lia.
  - destruct k as [|k]; simpl; [|apply IH].
    destruct (re (String c s)) as [[|n]|] eqn:Hm.
    + by apply proper_not_zero in Hm.
    + rewrite string_app_nil_l. specialize (IH n). lia.
    + simpl. specialize (IH 0). lia.
Qed.

(** ... and shortens it as soon as there is one match. *)
Lemma delete_all_shorter re s :
  proper re -> has_match re s = true ->
  String.length (replace_all re EmptyString s) < String.length s.
Proof.
  intros Hre. unfold replace_all. induction s as [|c s IH]; simpl.
  - intros H. apply matches_true in H as [n H].
    rewrite proper_nonempty in H by done. discriminate.
  - intros H. destruct (re (String c s)) as [[|n]|] eqn:Hm.
    + by apply proper_not_zero in Hm.
    + rewrite string_app_nil_l. pose proof (delete_from_length re n s Hre). lia.
    + unfold matches in H. rewrite Hm in H. simpl in *.
      specialize (IH H). lia.
Qed.

Lemma delete_all_same_length re s :
  proper re ->
  String.length (replace_all re EmptyString s) = String.length s ->
  has_match re s = false.
Proof.
  intros Hre Hlen. destruct (has_match re s) eqn:H; [|reflexivity].
  pose proof (delete_all_shorter re s Hre H). lia.
Qed.




End ReplaceFacts.

(* ===================================================================== *)
(** ** The sanitizer: properties *)
(* ===================================================================== *)

Section Sanitizer.

Implicit Types (s t x : string) (k n i : nat) (c : ascii).

Lemma black_fill_chars :
  black_fill = String "f" (String "i" (String "l" (String "l" (String "="
    (String dquote (String "#" (String "0" (String "0" (String "0"
    (String "0" (String "0" (String "0" (String dquote EmptyString))))))))))))).
Proof. reflexivity. Qed.

Lemma white_fill_chars :
  white_fill = String "f" (String "i" (String "l" (String "l" (String "="
    (String dquote (String "#" (String "f" (String "f" (String "f"
    (String "f" (String "f" (String "f" (String dquote EmptyString))))))))))))).
Proof. reflexivity. Qed.

Lemma ns0_re_proper : proper ns0_re.
Proof. exact (lit_proper "n" "s0:"). Qed.

Lemma xmlns_re_proper : proper xmlns_re.
Proof. exact (quoted_after_proper "x" ("mlns:ns0=" ++ String dquote EmptyString)). Qed.

Lemma black_re_proper : proper black_re.
Proof. unfold black_re. rewrite black_fill_chars. apply lit_proper. Qed.

Lemma metadata_re_proper : proper metadata_re.
Proof. exact (lazy_between_proper "<" "metadata>" metadata_close). Qed.

Lemma black_re_Some s n :
  black_re s = Some n -> n = 14 /\ exists t, s = black_fill ++ t.
Proof. intros H. by apply lit_Some in H as [-> ?]. Qed.

Lemma pattern_free_true s :
  pattern_free s = true <->
  has_match ns0_re s = false /\ has_match xmlns_re s = false
  /\ has_match black_re s = false /\ has_match metadata_re s = false.
Proof.
  unfold pattern_free. rewrite !andb_true_iff, !negb_true_iff. tauto.
Qed.


(** A text with none of the four patterns is a fixed point. *)
Lemma cleanSvgResponse_fixed s :
  pattern_free s = true -> cleanSvgResponse s = s.
Proof.
  intros (Hns & Hx & Hb & Hm)%pattern_free_true.
  unfold cleanSvgResponse, strip_ns0, strip_xmlns, recolor, strip_metadata.
  cbv zeta.
  rewrite (replace_all_no_match ns0_re) by exact Hns.
  rewrite (replace_all_no_match xmlns_re) by exact Hx.
  rewrite (replace_all_no_match black_re) by exact Hb.
  by apply replace_all_no_match.
Qed.

(** Recolouring keeps the length of the text. *)
Lemma recolor_from_length k s :
  String.length (replace_from black_re white_fill k s) = String.length s - k.
Proof.
  revert k. induction s as [|c s IH]; intros k.
  - by destruct k.
  - destruct k as [|k]; [|apply IH].
    destruct (black_re (String c s)) as [n|] eqn:Hm.
    + destruct (black_re_Some _ _ Hm) as [-> [t Ht]].
      rewrite (replace_from_match _ _ _ _ _ Hm).
      apply (f_equal String.length) in Ht. rewrite string_length_app in Ht.
      change (String.length black_fill) with 14 in Ht.
      rewrite string_length_app, IH.
      change (String.length white_fill) with 14. simpl in *. lia.
    + rewrite (replace_from_no_match _ _ _ _ Hm). simpl. rewrite IH. lia.
Qed.

Lemma recolor_length s : String.length (recolor s) = String.length s.
Proof. unfold recolor, replace_all. rewrite recolor_from_length. lia. Qed.

(** Recolouring changes every text that has a black fill. *)
Lemma recolor_changes s : has_match black_re s = true -> recolor s <> s.
Proof.
  unfold recolor, replace_all. induction s as [|c s IH].
  - simpl. discriminate.
  - cbn [has_match]. unfold matches.
    destruct (black_re (String c s)) as [n|] eqn:Hm.
    + intros _. destruct (black_re_Some _ _ Hm) as [-> [t Ht]].
      rewrite (replace_from_match _ _ _ _ _ Hm).
      rewrite Ht, white_fill_chars, black_fill_chars.
      rewrite !string_app_cons. intros H. by injection H.
    + rewrite (replace_from_no_match _ _ _ _ Hm). simpl.
      intros H Heq. injection Heq as Heq. by apply IH.
Qed.

(** The sanitizer never lengthens a text. *)
Lemma strip_length (re : matcher) s :
  proper re -> String.length (replace_all re EmptyString s) <= String.length s.
Proof.
  intros Hre. pose proof (delete_from_length re 0 s Hre). unfold replace_all. lia.
Qed.

(** A text that the sanitizer leaves as it is has none of the four
    patterns. *)
Lemma cleanSvgResponse_fixed_inv s :
  cleanSvgResponse s = s -> pattern_free s = true.
Proof.
  intros Hfix.
  assert (Hlen : String.length (cleanSvgResponse s) = String.length s) by by rewrite Hfix.
  unfold cleanSvgResponse in Hlen, Hfix. cbv zeta in Hlen, Hfix.
  set (p1 := strip_ns0 s) in *. set (p2 := strip_xmlns p1) in *.
  set (p3 := recolor p2) in *.
  pose proof (strip_length ns0_re s ns0_re_proper) as L1.
  pose proof (strip_length xmlns_re p1 xmlns_re_proper) as L2.
  pose proof (recolor_length p2) as L3.
  pose proof (strip_length metadata_re p3 metadata_re_proper) as L4.
  fold (strip_ns0 s) in L1. fold (strip_xmlns p1) in L2. fold p1 in L1. fold p2 in L2.
  fold p3 in L3. fold (strip_metadata p3) in L4.
  assert (H1 : has_match ns0_re s = false).
  { apply delete_all_same_length; [exact ns0_re_proper|].
    fold (strip_ns0 s). fold p1. lia. }
  assert (E1 : p1 = s) by by apply replace_all_no_match.
  assert (H2 : has_match xmlns_re s = false).
  { rewrite <- E1. apply delete_all_same_length; [exact xmlns_re_proper|].
    fold (strip_xmlns p1). fold p2. lia. }
  assert (E2 : p2 = s).
  { unfold p2. rewrite E1. by apply replace_all_no_match. }
  assert (H4 : has_match metadata_re p3 = false).
  { apply delete_all_same_length; [exact metadata_re_proper|].
    fold (strip_metadata p3). lia. }
  assert (E4 : strip_metadata p3 = p3) by by apply replace_all_no_match.
  assert (E3 : p3 = s) by congruence.
  assert (H3 : has_match black_re s = false).
  { destruct (has_match black_re s) eqn:Hb; [|reflexivity].
    exfalso. apply (recolor_changes s Hb). unfold p3 in E3. by rewrite E2 in E3. }
  apply pattern_free_true. rewrite <- E3 at 4. done.
Qed.

(** *** What recolouring can and cannot create *)




Section Transfer.

Variable re : matcher.
Hypothesis white_inert : forall x, has_match re (white_fill ++ x) = has_match re x.
Hypothesis head_transfer :
  forall t, matches re (recolor_from 0 t) = true -> matches re t = true.


End Transfer.










(** *** Occurrences after a deletion *)
























(** C4, as the claim states it, fails: the first application deletes the
    inner [ns0:] and leaves the token that the deletion brings together;
    the second application deletes that one. *)
Lemma cleanSvgResponse_not_idempotent :
  cleanSvgResponse "nns0:s0:" = "ns0:"
  /\ cleanSvgResponse (cleanSvgResponse "nns0:s0:") = ""
  /\ cleanSvgResponse (cleanSvgResponse "nns0:s0:") <> cleanSvgResponse "nns0:s0:".
Proof. vm_compute. repeat split. discriminate. Qed.

(** C4 (amended): applying the sanitizer twice gives the same text as
    applying it once exactly for the inputs whose sanitized text contains
    none of the four patterns (no [ns0:] token, no [xmlns:ns0]
    declaration, no black fill, no metadata block). *)
Theorem cleanSvgResponse_idempotent_iff (s : string) :
  cleanSvgResponse (cleanSvgResponse s) = cleanSvgResponse s
  <-> pattern_free (cleanSvgResponse s) = true.
Proof.
  split; [apply cleanSvgResponse_fixed_inv | apply cleanSvgResponse_fixed].
Qed.

Lemma cleanSvgResponse_idempotent_iff_witness :
  cleanSvgResponse (cleanSvgResponse svg_with_metadata)
  = cleanSvgResponse svg_with_metadata.
Proof.
  apply (proj2 (cleanSvgResponse_idempotent_iff svg_with_metadata)).
  vm_compute. reflexivity.
Defined.

End Sanitizer.

(* ===================================================================== *)
(** ** Sign-in form: properties *)
(* ===================================================================== *)

Section Login.

(** X1: one sign-in attempt.  The credentials passed on are the ones in
    the form when it is submitted; while the call is pending the submit
    button is disabled and no banner is shown, whatever was shown before;
    when it settles the button is enabled again, the banner shows the
    denial message exactly when the call failed, and the typed email and
    password are kept. *)
Theorem handleLogin_attempt (signedIn : bool) (s : LoginState) :
  let '(pending, credentials) := handleLogin_start s in
  let '(settled, logged) := handleLogin_settle signedIn pending in
  credentials = (email s, password s)
  /\ submit_disabled pending = true
  /\ error_banner pending = None
  /\ submit_disabled settled = false
  /\ error_banner settled = (if signedIn then None else Some ACCESS_DENIED)
  /\ logged = (if signedIn then [] else [Rejected])
  /\ email settled = email s
  /\ password settled = password s.
Proof. destruct signedIn; by repeat split. Qed.

(** X2: typing while the call is pending changes neither what was
    submitted nor how the attempt ends. *)
Theorem handleLogin_typing_while_pending (signedIn : bool) (s : LoginState)
    (typedEmail typedPassword : string) :
  let '(pending, credentials) := handleLogin_start s in
  let edited := setPassword typedPassword (setEmail typedEmail pending) in
  let '(settled, _) := handleLogin_settle signedIn edited in
  credentials = (email s, password s)
  /\ email settled = typedEmail
  /\ password settled = typedPassword
  /\ submit_disabled settled = false
  /\ error_banner settled = (if signedIn then None else Some ACCESS_DENIED).
Proof. destruct signedIn; by repeat split. Qed.

End Login.

(* ===================================================================== *)
(** ** Rendering and download: properties *)
(* ===================================================================== *)

Section Rendering.

Implicit Types (s : State).

Lemma truthy_opt_Some (o : option string) :
  truthy_opt o = true <-> exists c t, o = Some (String c t).
Proof.
  destruct o as [[|c t]|]; simpl; split; eauto; try discriminate.
  - by intros (? & ? & ?).
  - by intros (? & ? & ?).
Qed.

(** X3: the download guard agrees with the button.  The button is
    enabled exactly when an image is loaded and [handleDownload] would
    save a file; a file that is saved holds the current [vectorSvg], which
    is then not empty, under the fixed name and type; an empty
    [vectorSvg] is treated as absent. *)
Theorem handleDownload_agrees_with_button s :
  (download_button s = Enabled
   <-> truthy_opt (originalImage s) = true /\ exists d, handleDownload s = Some d)
  /\ (forall d,
        handleDownload s = Some d ->
        vectorSvg s = Some (dl_content d)
        /\ dl_content d <> EmptyString
        /\ dl_type d = "image/svg+xml"
        /\ dl_filename d = "laservector-output.svg")
  /\ (vectorSvg s = None \/ vectorSvg s = Some EmptyString -> handleDownload s = None).
Proof.
  unfold download_button, handleDownload. split; [|split].
  - destruct (truthy_opt (originalImage s)), (truthy_opt (vectorSvg s)); simpl;
      split; eauto; try discriminate; try (by intros [? _]); by intros [_ [? ?]].
  - intros d. destruct (vectorSvg s) as [[|c t]|]; simpl; try discriminate.
    intros [= <-]. by repeat split.
  - by intros [->| ->].
Qed.

(** X4: what the result panel shows around a conversion.  From the start
    of a run the spinner is shown, whatever vector there was.  After a
    reply with markup the panel holds the sanitized markup, as text when
    [show_debug] is on and as a picture otherwise, and the same text is
    what a download saves; when the sanitized markup is empty the panel is
    the placeholder and nothing can be saved.  After a failure the panel
    is what it would be for the vector kept from before. *)
Theorem result_panel_around_conversion s :
  (forall cl, truthy_opt (cl_image cl) = true ->
              result_panel (fst (processImage_start cl s)) = Spinner)
  /\ (forall rawSvg,
        let s' := fst (processImage_settle (ResponseOk (Some rawSvg)) s) in
        let svg := cleanSvgResponse rawSvg in
        result_panel s'
        = (if truthy svg
           then if truthy_flag (show_debug (params s)) then DebugSource svg
                else RenderedSvg svg
           else Placeholder)
        /\ handleDownload s'
           = if truthy svg
             then Some (mkDownload svg "image/svg+xml" "laservector-output.svg")
             else None)
  /\ (forall o error,
        try_block o = inl error ->
        result_panel (fst (processImage_settle o s))
        = result_panel (setIsProcessing false s)).
Proof.
  split; [|split].
  - intros cl Hcl. unfold processImage_start. by rewrite Hcl.
  - intros rawSvg. cbv zeta. unfold processImage_settle, result_panel, handleDownload.
    simpl. destruct (cleanSvgResponse rawSvg) as [|c t]; simpl.
    + by rewrite andb_false_r.
    + rewrite andb_true_r. by destruct (truthy_flag _).
  - intros o error Hfail. unfold processImage_settle. by rewrite Hfail.
Qed.

(** X5: the two source panels exclude each other's controls.  The drop
    zone (with the file input) is rendered exactly when no image is
    loaded, and then the download button is hidden; the preview with the
    remove button is rendered exactly when an image is loaded, and
    removing it brings back the drop zone, hides the download button and
    empties the result panel unless a run is pending. *)
Theorem source_panel_and_clear s :
  (truthy_opt (originalImage s) = false
   <-> source_panel s = DropZone (isDragging s))
  /\ (source_panel s = DropZone (isDragging s) -> download_button s = Hidden)
  /\ source_panel (clearImage s) = DropZone (isDragging s)
  /\ download_button (clearImage s) = Hidden
  /\ handleDownload (clearImage s) = None
  /\ result_panel (clearImage s) = (if isProcessing s then Spinner else Placeholder).
Proof.
  unfold source_panel, download_button, result_panel, handleDownload.
  split; [|split; [|by rewrite ?andb_false_r]].
  - destruct (truthy_opt (originalImage s)); simpl; split; try done.
  - by destruct (truthy_opt (originalImage s)).
Qed.

End Rendering.

(* ===================================================================== *)
(** ** Endpoints: properties *)
(* ===================================================================== *)

(** X6: both requests go to the same server.  For every value of the
    environment setting (unset, empty or set) the catalog URL and the
    conversion URL are one base followed by [/presets] and [/vectorize]:
    the setting when it is set and not empty, the local address
    otherwise. *)
Theorem endpoints_share_base (env : option string) :
  let base := if truthy_opt env then default EmptyString env else LOCAL_API in
  presets_url env = base ++ "/presets"
  /\ vectorize_url env = base ++ "/vectorize".
Proof. destruct env as [[|c e]|]; by split. Qed.

(* ===================================================================== *)
(** ** Parameter store: how the handlers compose *)
(* ===================================================================== *)

Section ParameterStoreCompose.

Implicit Types (s : State).

(** X7: field edits compose as writes to a record.  Edits of two
    different fields give the same state in either order, and of two
    edits of one field only the later one counts. *)
Theorem updateParam_compose (key1 key2 : ParamKey)
    (value1 value1' : field_ty key1) (value2 : field_ty key2) s :
  (key1 <> key2 ->
   updateParam key1 value1 (updateParam key2 value2 s)
   = updateParam key2 value2 (updateParam key1 value1 s))
  /\ updateParam key1 value1 (updateParam key1 value1' s) = updateParam key1 value1 s.
Proof.
  split.
  - destruct key1, key2; intros Hne; try reflexivity; congruence.
  - destruct key1; reflexivity.
Qed.

(** X8: choosing a preset that the catalog has discards the edits made
    before: the state is the one reached by choosing it without them, the
    parameter set is the preset's, the description shown is the
    preset's, and choosing it again changes nothing. *)
Theorem handlePresetChange_absorbs_edits (presetKey : PresetKey) (preset : Preset)
    (key : ParamKey) (value : field_ty key) s :
  presetKey <> custom ->
  presets s !! preset_key_name presetKey = Some preset ->
  handlePresetChange presetKey (updateParam key value s) = handlePresetChange presetKey s
  /\ params (handlePresetChange presetKey s) = preset_params preset
  /\ preset_description_shown (handlePresetChange presetKey s)
     = Some (preset_description preset)
  /\ handlePresetChange presetKey (handlePresetChange presetKey s)
     = handlePresetChange presetKey s.
Proof.
  intros Hne Hp.
  assert (Happly : forall s', presets s' = presets s ->
            handlePresetChange presetKey s'
            = setParams (preset_params preset) (setSelectedPreset presetKey s')).
  { intros s' Hs'. unfold handlePresetChange; cbv zeta.
    rewrite decide_False by exact Hne. by rewrite Hs', Hp. }
  rewrite (Happly s eq_refl), (Happly (updateParam key value s) eq_refl).
  rewrite (Happly (setParams (preset_params preset) (setSelectedPreset presetKey s))
             eq_refl).
  split; [reflexivity|]. split; [reflexivity|]. split; [|reflexivity].
  unfold preset_description_shown. simpl.
  rewrite decide_False by exact Hne. by rewrite Hp.
Qed.

Lemma handlePresetChange_absorbs_edits_witness :
  let s := setPresets sample_catalog init_state in
  handlePresetChange clean (updateParam k_threshold 90%float s) = handlePresetChange clean s
  /\ params (handlePresetChange clean s) = preset_params (sample_preset 140%float).
Proof.
  cbv zeta.
  destruct (handlePresetChange_absorbs_edits clean (sample_preset 140%float)
              k_threshold 90%float (setPresets sample_catalog init_state))
    as (H1 & H2 & _); [discriminate | reflexivity |].
  by split.
Defined.

End ParameterStoreCompose.

(* ===================================================================== *)
(** ** Invariants of the worlds reached from mount *)
(* ===================================================================== *)

Section Reachable.

Implicit Types (w : World) (e : Event).

Lemma commit_unfold (w w' : World) :
  (params_ref w = params_ref w' /\ originalImage (ui w) = originalImage (ui w')
   /\ commit w w' = w')
  \/ ((params_ref w <> params_ref w' \/ originalImage (ui w) <> originalImage (ui w'))
      /\ commit w w'
         = with_timer (Some (clock w' + DEBOUNCE_MS, closure_of (ui w'))) w').
Proof.
  unfold commit. destruct (decide _) as [[??]|Hne]; [by left|right].
  split; [|reflexivity].
  destruct (decide (params_ref w = params_ref w')); [|by left].
  right. intros H. by apply Hne.
Qed.

Lemma commit_frame (w w' : World) :
  ui (commit w w') = ui w'
  /\ params_ref (commit w w') = params_ref w'
  /\ presets_pending (commit w w') = presets_pending w'
  /\ inflight (commit w w') = inflight w'
  /\ sent (commit w w') = sent w'.
Proof. unfold commit. by destruct (decide _). Qed.

Lemma run_snoc w (es : list Event) e :
  run w (es ++ [e])%list = step (run w es) e.
Proof. unfold run. by rewrite fold_left_app. Qed.

Lemma reachable_ind (P : World -> Prop) :
  P init_world ->
  (forall w e, P w -> P (step w e)) ->
  forall w, reachable w -> P w.
Proof.
  intros Hinit Hstep w [es ->]. induction es as [|e es IH] using rev_ind.
  - exact Hinit.
  - rewrite run_snoc. by apply Hstep.
Qed.

Lemma reachable_step w e : reachable w -> reachable (step w e).
Proof. intros [es ->]. exists (es ++ [e])%list. by rewrite run_snoc. Qed.

(** *** The spinner *)

Lemma spinner_has_request_step w e :
  spinner_has_request w -> spinner_has_request (step w e).
Proof.
  unfold spinner_has_request, step. intros Hw.
  destruct (commit_frame w (handle e w)) as (-> & _ & _ & -> & _).
  destruct e as [key value|presetKey|files| | |files|i result| | |r|i o|dt]; simpl;
    try exact Hw.
  - assert (Hp : isProcessing (handlePresetChange presetKey (ui w))
                 = isProcessing (ui w)).
    { unfold handlePresetChange; cbv zeta.
      destruct (decide (presetKey = custom)); [done|].
      by destruct (presets (ui w) !! preset_key_name presetKey). }
    destruct (decide (presetKey = custom));
      [|destruct (presets (ui w) !! preset_key_name presetKey)];
      simpl; rewrite Hp; exact Hw.
  - unfold handleImageUpload. destruct (head files); simpl; intros H%Hw;
      by destruct (inflight w).
  - unfold handleDrop. destruct (head files) as [file|]; simpl;
      [destruct (startsWith _ _)|]; simpl; intros H%Hw; by destruct (inflight w).
  - destruct (reads w !! i); [|exact Hw]. simpl.
    unfold reader_onload. by destruct (truthy_opt result).
  - destruct (presets_pending w); [|exact Hw].
    destruct r as [|[] [data|]]; simpl; try exact Hw.
    by destruct (data !! "clean").
  - destruct (inflight w !! i); [|exact Hw].
    unfold processImage_settle. by destruct (try_block o).
  - destruct (timer w) as [[due cl]|]; [|exact Hw].
    destruct (decide (due <= clock w + dt)); [|exact Hw].
    unfold timer_body, processImage_start.
    destruct (truthy_opt (cl_image cl)); simpl.
    + intros _. by destruct (inflight w).
    + rewrite app_nil_r. exact Hw.
Qed.

(** X9: the spinner is never shown without a conversion request
    awaiting its reply, in any world reached from mount by any events. *)
Theorem spinner_only_while_request_pending (es : list Event) :
  let w := run init_world es in
  result_panel (ui w) = Spinner -> inflight w <> [].
Proof.
  cbv zeta. intros Hpanel.
  assert (Hinv : spinner_has_request (run init_world es)).
  { apply reachable_ind; [discriminate | exact spinner_has_request_step | by exists es]. }
  apply Hinv. unfold result_panel in Hpanel.
  destruct (isProcessing _); [reflexivity|].
  by repeat destruct (_ && _) || destruct (truthy_opt _).
Qed.

Lemma spinner_only_while_request_pending_witness :
  inflight converting_world <> [].
Proof.
  apply (spinner_only_while_request_pending
           [ImageUpload [png_a]; ReaderLoad 0 (Some image_a); Elapse 500]).
  reflexivity.
Defined.

(** *** The pending timer belongs to the current render *)

Lemma timer_current_same w w' :
  timer w' = timer w -> closure_of (ui w') = closure_of (ui w) ->
  timer_current w -> timer_current w'.
Proof. unfold timer_current. by intros -> ->. Qed.

Lemma handle_timer_current w e :
  coherent w ->
  params_ref w = params_ref (handle e w) ->
  originalImage (ui w) = originalImage (ui (handle e w)) ->
  timer_current (handle e w).
Proof.
  intros (Hal & Ht & Hr & Hc).
  destruct e as [key value|presetKey|files| | |files|i result| | |r|i o|dt]; simpl.
  - intros Href _. unfold refs_allocated in Hal. rewrite Href in Hal. lia.
  - unfold handlePresetChange; cbv zeta.
    destruct (decide (presetKey = custom)); [intros _ _; exact Ht|].
    destruct (presets (ui w) !! preset_key_name presetKey) as [preset|] eqn:Hp;
      [|intros _ _; exact Ht].
    simpl. intros Href _. unfold ref_consistent in Hr. rewrite Href in Hr.
    destruct Hr as (preset' & Hp' & Hparams).
    assert (preset' = preset) as -> by congruence.
    apply (timer_current_same w); [reflexivity| |exact Ht].
    unfold closure_of; simpl. by rewrite Hparams.
  - intros _ _. unfold handleImageUpload. by destruct (head files).
  - intros _ _. exact Ht.
  - intros _ _. exact Ht.
  - intros _ _. unfold handleDrop. destruct (head files) as [file|]; [|exact Ht].
    by destruct (startsWith "image/" (file_type file)).
  - destruct (reads w !! i); [|intros _ _; exact Ht]. simpl. intros _ Himg.
    apply (timer_current_same w); [reflexivity| |exact Ht].
    unfold closure_of. f_equal; [symmetry; exact Himg|].
    unfold reader_onload. by destruct (truthy_opt result).
  - intros _ Himg. apply (timer_current_same w); [reflexivity| |exact Ht].
    unfold closure_of. f_equal. symmetry; exact Himg.
  - intros _ _. exact Ht.
  - destruct (presets_pending w) eqn:Hpend; [|intros _ _; exact Ht].
    destruct r as [|[] [data|]]; simpl; try (intros _ _; exact Ht).
    destruct (data !! "clean") as [preset|]; simpl; [|intros _ _; exact Ht].
    intros Href _. unfold ref_consistent in Hr. rewrite Href in Hr.
    destruct Hr as (preset' & Hp' & _). rewrite (Hc Hpend) in Hp'. done.
  - destruct (inflight w !! i); [|intros _ _; exact Ht].
    unfold processImage_settle. destruct (try_block o); simpl; intros _ _; exact Ht.
  - destruct (timer w) as [[due cl]|] eqn:Htimer; [|intros _ _; exact I].
    destruct (decide (due <= clock w + dt)).
    + destruct (timer_body cl (ui w)). intros _ _. exact I.
    + intros _ _. unfold timer_current in *; simpl. by rewrite Htimer in *.
Qed.

Lemma handle_ref_consistent w e :
  ref_consistent w -> catalog_unloaded w ->
  ref_consistent (handle e w) /\ catalog_unloaded (handle e w).
Proof.
  intros Hr Hc.
  destruct e as [key value|presetKey|files| | |files|i result| | |r|i o|dt]; simpl;
    try (split; [exact Hr | exact Hc]).
  - split; [exact I | exact Hc].
  - unfold handlePresetChange; cbv zeta.
    destruct (decide (presetKey = custom)); [split; [exact Hr|exact Hc]|].
    destruct (presets (ui w) !! preset_key_name presetKey) as [preset|] eqn:Hp;
      [|split; [exact Hr|exact Hc]].
    split; [|exact Hc]. unfold ref_consistent; simpl. eauto.
  - unfold handleImageUpload. destruct (head files); split; [exact Hr|exact Hc|exact Hr|exact Hc].
  - unfold handleDrop. destruct (head files) as [file|];
      [destruct (startsWith "image/" (file_type file))|];
      (split; [exact Hr | exact Hc]).
  - destruct (reads w !! i); [|split; [exact Hr|exact Hc]].
    unfold ref_consistent, catalog_unloaded, reader_onload in *; simpl.
    by destruct (truthy_opt result).
  - destruct (presets_pending w) eqn:Hpend; [|split; [exact Hr|exact Hc]].
    assert (Hnot : forall key, params_ref w <> RefPreset key).
    { intros key Href. unfold ref_consistent in Hr. rewrite Href in Hr.
      destruct Hr as (preset & Hp & _). by rewrite (Hc Hpend) in Hp. }
    destruct r as [|[] [data|]]; simpl;
      try (split; [exact Hr | by intros]).
    destruct (data !! "clean") as [preset|] eqn:Hclean; simpl.
    + split; [|by intros]. unfold ref_consistent; simpl. eauto.
    + split; [|by intros]. unfold ref_consistent in *; simpl.
      destruct (params_ref w) as [|key|n]; try exact I. by destruct (Hnot key).
  - destruct (inflight w !! i); [|split; [exact Hr|exact Hc]].
    unfold processImage_settle. by destruct (try_block o).
  - destruct (timer w) as [[due cl]|]; [|split; [exact Hr|exact Hc]].
    destruct (decide (due <= clock w + dt)); [|split; [exact Hr|exact Hc]].
    unfold timer_body, processImage_start.
    by destruct (truthy_opt (cl_image cl)).
Qed.

Lemma coherent_init : coherent init_world.
Proof. by repeat split. Qed.

Lemma coherent_step w e : coherent w -> coherent (step w e).
Proof.
  intros Hw. pose proof Hw as (Hal & Ht & Hr & Hc).
  split; [by apply refs_allocated_step|].
  destruct (handle_ref_consistent w e Hr Hc) as [Hr' Hc'].
  unfold step.
  destruct (commit_unfold w (handle e w)) as [(Href & Himg & ->)|[_ ->]].
  - split; [by apply handle_timer_current|]. by split.
  - by repeat split.
Qed.

Lemma reachable_coherent w : reachable w -> coherent w.
Proof. apply reachable_ind; [exact coherent_init | exact coherent_step]. Qed.

(** X10: a conversion request always carries the image and the
    parameters as they are when it is issued.  In any world reached from
    mount, letting time pass either issues no request, or issues exactly
    one, for the non-empty image now loaded and with the current
    parameter set, at the time the pending timer was due. *)
Theorem request_carries_current_state (es : list Event) (dt : nat) :
  let w := run init_world es in
  let w' := step w (Elapse dt) in
  (sent w' = sent w /\ inflight w' = inflight w)
  \/ exists due,
       timer w = Some (due, closure_of (ui w))
       /\ due <= clock w + dt
       /\ truthy_opt (originalImage (ui w)) = true
       /\ sent w' = (due, closure_of (ui w)) :: sent w
       /\ inflight w' = (inflight w ++ [closure_of (ui w)])%list.
Proof.
  cbv zeta. set (w := run init_world es).
  assert (Hw : coherent w) by (apply reachable_coherent; by exists es).
  destruct Hw as (_ & Ht & _ & _). unfold step.
  destruct (commit_frame w (handle (Elapse dt) w)) as (_ & _ & _ & -> & ->).
  unfold timer_current in Ht. simpl.
  destruct (timer w) as [[due cl]|]; [|by left]. subst cl.
  destruct (decide (due <= clock w + dt)) as [Hdue|]; [|by left].
  unfold timer_body, processImage_start. simpl.
  destruct (truthy_opt (originalImage (ui w))) eqn:Himg; simpl.
  - right. exists due. by repeat split.
  - left. by rewrite app_nil_r.
Qed.

(** X11: the catalog is written once.  Until the catalog request settles
    the catalog is empty; once it has settled, no event changes the
    catalog again. *)
Theorem catalog_written_once (es : list Event) (e : Event) :
  let w := run init_world es in
  (presets_pending w = true -> presets (ui w) = ∅)
  /\ (presets_pending w = false ->
      presets (ui (step w e)) = presets (ui w)
      /\ presets_pending (step w e) = false).
Proof.
  cbv zeta. set (w := run init_world es).
  assert (Hw : coherent w) by (apply reachable_coherent; by exists es).
  split; [apply Hw|]. intros Hpend. unfold step.
  destruct (commit_frame w (handle e w)) as (-> & _ & -> & _).
  destruct e as [key value|presetKey|files| | |files|i result| | |r|i o|dt]; simpl;
    try (split; [reflexivity | exact Hpend]).
  - unfold handlePresetChange; cbv zeta.
    destruct (decide (presetKey = custom)); [by split|].
    destruct (presets (ui w) !! preset_key_name presetKey); by split.
  - unfold handleImageUpload. destruct (head files); by split.
  - unfold handleDrop. destruct (head files) as [file|];
      [destruct (startsWith "image/" (file_type file))|]; by split.
  - destruct (reads w !! i); [|by split]. simpl.
    unfold reader_onload. destruct (truthy_opt result); by split.
  - rewrite Hpend. by split.
  - destruct (inflight w !! i); [|by split].
    unfold processImage_settle. destruct (try_block o); by split.
  - destruct (timer w) as [[due cl]|]; [|by split].
    destruct (decide (due <= clock w + dt)); [|by split].
    unfold timer_body, processImage_start.
    destruct (truthy_opt (cl_image cl)); by split.
Qed.

(** *** Which events re-arm the debounce timer *)

Lemma step_preset_applied w (presetKey : PresetKey) (preset : Preset) :
  presetKey <> custom ->
  presets (ui w) !! preset_key_name presetKey = Some preset ->
  params_ref w <> RefPreset (preset_key_name presetKey) ->
  step w (PresetChange presetKey)
  = with_timer
      (Some (clock w + DEBOUNCE_MS,
             mkClosure (originalImage (ui w)) (preset_params preset)))
      (with_params_ref (RefPreset (preset_key_name presetKey))
         (with_ui (setParams (preset_params preset)
                     (setSelectedPreset presetKey (ui w))) w)).
Proof.
  intros Hne Hp Href.
  unfold step, handle, handlePresetChange; cbv zeta.
  rewrite !decide_False by exact Hne. rewrite Hp.
  unfold commit; simpl. rewrite decide_False; [reflexivity|].
  intros [Href' _]. by apply Href.
Qed.

(** Switching to a preset of the catalog re-arms the timer whenever it
    changes the parameter set. *)
Lemma preset_switch_rearms w (presetKey : PresetKey) (preset : Preset) :
  reachable w ->
  presetKey <> custom ->
  presets (ui w) !! preset_key_name presetKey = Some preset ->
  params (ui w) <> preset_params preset ->
  timer (step w (PresetChange presetKey))
  = Some (clock w + DEBOUNCE_MS,
          mkClosure (originalImage (ui w)) (preset_params preset)).
Proof.
  intros Hw Hne Hp Hparams. apply reachable_coherent in Hw as (_ & _ & Hr & _).
  rewrite (step_preset_applied w presetKey preset Hne Hp); [reflexivity|].
  intros Href. unfold ref_consistent in Hr. rewrite Href in Hr.
  destruct Hr as (preset' & Hp' & Hparams'). apply Hparams. congruence.
Qed.

(** The catalog load re-arms the timer when it installs the clean preset. *)
Lemma catalog_load_rearms w (data : gmap string Preset) (preset : Preset) :
  reachable w ->
  presets_pending w = true ->
  data !! "clean" = Some preset ->
  timer (step w (PresetsSettle (PresetsResponse true (Some data))))
  = Some (clock w + DEBOUNCE_MS,
          mkClosure (originalImage (ui w)) (preset_params preset)).
Proof.
  intros Hw Hpend Hclean. apply reachable_coherent in Hw as (_ & _ & Hr & Hc).
  unfold step, handle. rewrite Hpend. simpl. rewrite Hclean.
  unfold commit; simpl. rewrite decide_False; [reflexivity|].
  intros [Href _]. unfold ref_consistent in Hr. rewrite Href in Hr.
  destruct Hr as (preset' & Hp' & _). by rewrite (Hc Hpend) in Hp'.
Qed.

(** A completed read of another image, and the removal of the image,
    re-arm the timer. *)
Lemma image_load_rearms w (i : nat) (file : File) (result : string) :
  reads w !! i = Some file ->
  truthy result = true ->
  Some result <> originalImage (ui w) ->
  timer (step w (ReaderLoad i (Some result)))
  = Some (clock w + DEBOUNCE_MS, mkClosure (Some result) (params (ui w))).
Proof.
  intros Hread Hres Hne. unfold step, handle. rewrite Hread.
  unfold reader_onload; simpl. rewrite Hres. simpl.
  unfold commit; simpl. rewrite decide_False; [reflexivity|].
  intros [_ Himg]. by apply Hne.
Qed.

Lemma image_clear_rearms w :
  originalImage (ui w) <> None ->
  timer (step w ClearImage)
  = Some (clock w + DEBOUNCE_MS, mkClosure None (params (ui w))).
Proof.
  intros Hne. unfold step, handle, commit; simpl.
  rewrite decide_False; [reflexivity|]. intros [_ Himg]. by apply Hne.
Qed.

(** A field edit and, 200 ms later, a switch to a preset of the catalog. *)
Lemma edit_then_preset_switch w key (value : field_ty key)
    (presetKey : PresetKey) (preset : Preset) (quiet : nat) :
  reachable w ->
  truthy_opt (originalImage (ui w)) = true ->
  presetKey <> custom ->
  presets (ui w) !! preset_key_name presetKey = Some preset ->
  DEBOUNCE_MS <= quiet ->
  let w' := run w [UpdateParam key value; Elapse 200;
                   PresetChange presetKey; Elapse quiet] in
  sent w'
  = (clock w + 200 + DEBOUNCE_MS,
     mkClosure (originalImage (ui w)) (preset_params preset)) :: sent w
  /\ timer w' = None
  /\ params (ui w') = preset_params preset.
Proof.
  intros Hw Himg Hne Hp Hquiet. cbv zeta.
  apply reachable_coherent in Hw as (Hal & _).
  unfold run; simpl fold_left.
  rewrite (updateParam_rearms w) by exact Hal.
  set (w1 := mkWorld _ _ _ _ _ _ _ _ _ _ _).
  assert (Hstep2 : step w1 (Elapse 200)
                   = mkWorld (ui w1) (params_ref w1) (next_ref w1) (clock w + 200)
                       (timer w1) (reads w1) (presets_pending w1) (inflight w1)
                       (sent w1) (svg_source w1) (console w1)).
  { unfold step, commit, handle, w1; simpl.
    rewrite (decide_False (P := clock w + DEBOUNCE_MS <= clock w + 200))
      by (unfold DEBOUNCE_MS; lia).
    simpl. by rewrite decide_True. }
  rewrite Hstep2. clear Hstep2.
  set (w2 := mkWorld _ _ _ (clock w + 200) _ _ _ _ _ _ _).
  rewrite (step_preset_applied w2 presetKey preset Hne Hp) by discriminate.
  unfold step, commit, handle; simpl.
  rewrite (decide_True (P := clock w + 200 + DEBOUNCE_MS <= clock w + 200 + quiet))
    by lia.
  unfold timer_body, processImage_start; simpl. rewrite Himg; simpl.
  rewrite decide_True by done. by repeat split.
Qed.

End Reachable.

(* ===================================================================== *)
(** ** Debounce: the claim *)
(* ===================================================================== *)

Section DebounceClaim.

(** C9: with timers that fire when they are due, every parameter change
    and every image change replaces the pending timer by one due
    [DEBOUNCE_MS] = 500 ms later, whose callback sees the new image and
    parameters: a field edit, a switch to a preset of the catalog that
    changes the parameter set, the catalog load that installs the clean
    preset, a completed read of another image, and the removal of the
    image (in general, every event that changes the object in [params] or
    the value of [originalImage]).  Two parameter changes 200 ms apart
    (two field edits, or a field edit and a preset switch) followed by at
    least 500 ms without events issue exactly one conversion request,
    500 ms after the second change, carrying the image and the
    parameters as they are after both changes; and a timer whose render
    had no image issues no request and changes nothing. *)
Theorem debounce_spec :
  DEBOUNCE_MS = 500
  /\ (forall w key (value : field_ty key),
        refs_allocated w ->
        timer (step w (UpdateParam key value))
        = Some (clock w + 500, closure_of (updateParam key value (ui w))))
  /\ (forall w e,
        params_ref (handle e w) <> params_ref w
        \/ originalImage (ui (handle e w)) <> originalImage (ui w) ->
        timer (step w e) = Some (clock (handle e w) + 500, closure_of (ui (handle e w))))
  /\ (forall w key1 (value1 : field_ty key1) key2 (value2 : field_ty key2) quiet,
        refs_allocated w ->
        truthy_opt (originalImage (ui w)) = true ->
        500 <= quiet ->
        let w' := run w [UpdateParam key1 value1; Elapse 200;
                         UpdateParam key2 value2; Elapse quiet] in
        sent w'
        = (clock w + 200 + 500,
           mkClosure (originalImage (ui w))
             (set_field key2 value2 (set_field key1 value1 (params (ui w)))))
          :: sent w
        /\ timer w' = None
        /\ clock w' = clock w + 200 + quiet
        /\ isProcessing (ui w') = true)
  /\ (forall cl s, truthy_opt (cl_image cl) = false -> timer_body cl s = (s, None))
  /\ (forall w due cl dt,
        timer w = Some (due, cl) -> due <= clock w + dt ->
        truthy_opt (cl_image cl) = false ->
        let w' := step w (Elapse dt) in
        sent w' = sent w /\ inflight w' = inflight w /\ ui w' = ui w /\ timer w' = None)
  /\ (forall es (presetKey : PresetKey) (preset : Preset),
        let w := run init_world es in
        presetKey <> custom ->
        presets (ui w) !! preset_key_name presetKey = Some preset ->
        params (ui w) <> preset_params preset ->
        timer (step w (PresetChange presetKey))
        = Some (clock w + 500, mkClosure (originalImage (ui w)) (preset_params preset)))
  /\ (forall es (data : gmap string Preset) (preset : Preset),
        let w := run init_world es in
        presets_pending w = true ->
        data !! "clean" = Some preset ->
        timer (step w (PresetsSettle (PresetsResponse true (Some data))))
        = Some (clock w + 500, mkClosure (originalImage (ui w)) (preset_params preset)))
  /\ (forall w i file result,
        reads w !! i = Some file ->
        truthy result = true ->
        Some result <> originalImage (ui w) ->
        timer (step w (ReaderLoad i (Some result)))
        = Some (clock w + 500, mkClosure (Some result) (params (ui w))))
  /\ (forall w,
        originalImage (ui w) <> None ->
        timer (step w ClearImage) = Some (clock w + 500, mkClosure None (params (ui w))))
  /\ (forall es key (value : field_ty key) (presetKey : PresetKey) (preset : Preset) quiet,
        let w := run init_world es in
        truthy_opt (originalImage (ui w)) = true ->
        presetKey <> custom ->
        presets (ui w) !! preset_key_name presetKey = Some preset ->
        500 <= quiet ->
        let w' := run w [UpdateParam key value; Elapse 200;
                         PresetChange presetKey; Elapse quiet] in
        sent w'
        = (clock w + 200 + 500,
           mkClosure (originalImage (ui w)) (preset_params preset)) :: sent w
        /\ timer w' = None
        /\ params (ui w') = preset_params preset).
Proof.
  split; [reflexivity|].
  split; [intros w key value Hw; by rewrite updateParam_rearms|].
  split; [exact dependency_change_rearms|].
  split.
  { intros w key1 value1 key2 value2 quiet Hw Himg Hquiet. cbv zeta.
    unfold run; simpl fold_left.
    rewrite (updateParam_rearms w) by exact Hw.
    set (w1 := mkWorld _ _ _ _ _ _ _ _ _ _ _).
    assert (Hstep2 : step w1 (Elapse 200)
                     = mkWorld (ui w1) (params_ref w1) (next_ref w1) (clock w + 200)
                         (timer w1) (reads w1) (presets_pending w1) (inflight w1)
                         (sent w1) (svg_source w1) (console w1)).
    { unfold step, commit, handle, w1; simpl.
      rewrite (decide_False (P := clock w + DEBOUNCE_MS <= clock w + 200))
        by (unfold DEBOUNCE_MS; lia).
      simpl. by rewrite decide_True. }
    rewrite Hstep2. clear Hstep2.
    set (w2 := mkWorld _ _ _ (clock w + 200) _ _ _ _ _ _ _).
    assert (Hw2 : refs_allocated w2) by (unfold refs_allocated, w2, w1; simpl; lia).
    rewrite (updateParam_rearms w2) by exact Hw2.
    unfold step, commit, handle; simpl.
    rewrite (decide_True (P := clock w + 200 + DEBOUNCE_MS <= clock w + 200 + quiet))
      by (unfold DEBOUNCE_MS; lia).
    unfold timer_body, processImage_start; simpl.
    rewrite Himg; simpl. rewrite decide_True by done. simpl.
    unfold DEBOUNCE_MS. by repeat split. }
  split; [intros cl s Hcl; unfold timer_body; by rewrite Hcl|].
  split.
  { intros w due cl dt Ht Hdue Hcl. cbv zeta.
    unfold step, commit, handle. rewrite Ht.
    rewrite (decide_True (P := due <= clock w + dt)) by exact Hdue.
    unfold timer_body. rewrite Hcl. simpl.
    rewrite decide_True by done. simpl. rewrite app_nil_r. by repeat split. }
  split.
  { intros es presetKey preset w. apply preset_switch_rearms. by exists es. }
  split.
  { intros es data preset w. apply catalog_load_rearms. by exists es. }
  split; [exact image_load_rearms|].
  split; [exact image_clear_rearms|].
  intros es key value presetKey preset quiet w Himg Hne Hp Hquiet.
  apply edit_then_preset_switch; try done. by exists es.
Qed.

Lemma debounce_spec_witness :
  sent (run loaded_world [UpdateParam k_threshold 100%float; Elapse 200;
                          UpdateParam k_denoise 2%float; Elapse 500])
  = [(700, mkClosure (Some image_a)
             (set_field k_denoise 2%float
                (set_field k_threshold 100%float DEFAULT_PARAMS)))]
  /\ sent (run (run init_world catalog_and_image_events)
             [UpdateParam k_threshold 100%float; Elapse 200;
              PresetChange clean; Elapse 500])
     = [(700, mkClosure (Some image_a) (preset_params (sample_preset 140%float)))]
  /\ timer (step (run init_world catalog_and_image_events) ClearImage)
     = Some (500, mkClosure None (preset_params (sample_preset 140%float))).
Proof.
  destruct debounce_spec as (_ & _ & _ & Hedits & _ & _ & _ & _ & _ & Hclear & Hswitch).
  split; [|split].
  - destruct (Hedits loaded_world k_threshold 100%float k_denoise 2%float 500)
      as (Hsent & _); [exact I | reflexivity | lia |].
    exact Hsent.
  - destruct (Hswitch catalog_and_image_events k_threshold 100%float clean
                (sample_preset 140%float) 500)
      as (Hsent & _); [reflexivity | discriminate | reflexivity | lia |].
    exact Hsent.
  - apply (Hclear (run init_world catalog_and_image_events)). discriminate.
Defined.

End DebounceClaim.

(* ===================================================================== *)
(** ** Intake and edits as events *)
(* ===================================================================== *)

Section IntakeEvents.

Implicit Types (w : World).

(** X12: a drop whose first file does not report an image type is
    ignored, whatever files follow it: the drag flag is lowered, no read
    is started, and the image, the vector, the pending timer, the
    requests and the console stay as they were. *)
Theorem drop_of_non_image_is_ignored (file : File) (rest : list File) w :
  startsWith "image/" (file_type file) = false ->
  let w' := step w (Drop (file :: rest)) in
  ui w' = setIsDragging false (ui w)
  /\ reads w' = reads w
  /\ timer w' = timer w
  /\ inflight w' = inflight w
  /\ sent w' = sent w
  /\ console w' = console w.
Proof.
  intros Hty. cbv zeta. unfold step, handle.
  rewrite (handleDrop_non_image _ _ _ Hty).
  unfold commit; simpl. rewrite decide_True by done. simpl.
  rewrite app_nil_r. by repeat split.
Qed.

Lemma drop_of_non_image_is_ignored_witness :
  ui (step loaded_world (Drop [pdf_file; png_b])) = setIsDragging false (ui loaded_world)
  /\ reads (step loaded_world (Drop [pdf_file; png_b])) = [].
Proof.
  destruct (drop_of_non_image_is_ignored pdf_file [png_b] loaded_world eq_refl)
    as (H1 & H2 & _).
  split; [exact H1 | exact H2].
Defined.

(** X13: a drop whose first file reports an image type starts reading
    that file and no other; until the read completes nothing but the drag
    flag changes.  When the read completes with a non-empty result that
    differs from the image held, the result becomes the image, the vector
    is removed, and the timer is set for 500 ms later with the new image
    and the current parameters. *)
Theorem drop_of_image_is_read (file : File) (rest : list File) (result : string) w :
  startsWith "image/" (file_type file) = true ->
  truthy result = true ->
  Some result <> originalImage (ui w) ->
  let w1 := step w (Drop (file :: rest)) in
  let w2 := step w1 (ReaderLoad (length (reads w)) (Some result)) in
  ui w1 = setIsDragging false (ui w)
  /\ reads w1 = (reads w ++ [file])%list
  /\ timer w1 = timer w
  /\ originalImage (ui w2) = Some result
  /\ vectorSvg (ui w2) = None
  /\ params (ui w2) = params (ui w)
  /\ reads w2 = reads w
  /\ timer w2 = Some (clock w + DEBOUNCE_MS, mkClosure (Some result) (params (ui w))).
Proof.
  intros Hty Hres Hne. cbv zeta.
  assert (H1 : step w (Drop (file :: rest))
               = start_read (Some file) (with_ui (setIsDragging false (ui w)) w)).
  { unfold step, handle, handleDrop. simpl. rewrite Hty.
    unfold commit. by rewrite decide_True. }
  rewrite H1. split; [reflexivity|]. split; [reflexivity|]. split; [reflexivity|].
  unfold step, handle. simpl.
  rewrite lookup_app_r by lia. rewrite Nat.sub_diag. simpl.
  unfold reader_onload. simpl. rewrite Hres. simpl.
  unfold commit; simpl. rewrite decide_False by (intros [_ H]; by apply Hne).
  simpl. repeat split; try reflexivity.
  rewrite delete_middle. apply app_nil_r.
Qed.

Lemma drop_of_image_is_read_witness :
  let w := step (step init_world (Drop [png_a; pdf_file])) (ReaderLoad 0 (Some image_a)) in
  originalImage (ui w) = Some image_a
  /\ timer w = Some (DEBOUNCE_MS, mkClosure (Some image_a) DEFAULT_PARAMS).
Proof.
  cbv zeta.
  destruct (drop_of_image_is_read png_a [pdf_file] image_a init_world)
    as (_ & _ & _ & H1 & _ & _ & _ & H2); [reflexivity | reflexivity | discriminate |].
  split; [exact H1 | exact H2].
Defined.

(** X14: a read that completes with no result, or with the empty string,
    changes nothing: the page state and the pending timer are as before,
    and only the read is no longer pending. *)
Theorem empty_read_changes_nothing (i : nat) (file : File) (result : option string) w :
  reads w !! i = Some file ->
  result = None \/ result = Some EmptyString ->
  let w' := step w (ReaderLoad i result) in
  ui w' = ui w
  /\ timer w' = timer w
  /\ inflight w' = inflight w
  /\ sent w' = sent w
  /\ reads w' = delete i (reads w).
Proof.
  intros Hread Hres. cbv zeta. unfold step, handle. rewrite Hread.
  assert (Hon : reader_onload result (ui w) = ui w) by by destruct Hres as [-> | ->].
  rewrite Hon. unfold commit; simpl. rewrite decide_True by done. by repeat split.
Qed.

Lemma empty_read_changes_nothing_witness :
  let w := step init_world (ImageUpload [png_a]) in
  ui (step w (ReaderLoad 0 (Some EmptyString))) = ui w
  /\ timer (step w (ReaderLoad 0 (Some EmptyString))) = timer w.
Proof.
  cbv zeta.
  destruct (empty_read_changes_nothing 0 png_a (Some EmptyString)
              (step init_world (ImageUpload [png_a])) eq_refl (or_intror eq_refl))
    as (H1 & H2 & _).
  split; [exact H1 | exact H2].
Defined.

(** X15: the debug toggle is an edit like any other.  With an image
    loaded, toggling [show_debug] moves the selection to [custom] and,
    after the debounce delay, issues a conversion request for the same
    image whose parameters carry the toggled flag; the result panel then
    shows the spinner. *)
Theorem debug_toggle_requests_conversion (b : bool) (quiet : nat) w :
  refs_allocated w ->
  truthy_opt (originalImage (ui w)) = true ->
  DEBOUNCE_MS <= quiet ->
  let w' := run w [UpdateParam k_show_debug b; Elapse quiet] in
  selectedPreset (ui w') = custom
  /\ show_debug (params (ui w')) = Some b
  /\ sent w'
     = (clock w + DEBOUNCE_MS,
        mkClosure (originalImage (ui w)) (set_field k_show_debug b (params (ui w))))
       :: sent w
  /\ result_panel (ui w') = Spinner.
Proof.
  intros Hw Himg Hquiet. cbv zeta. unfold run; simpl fold_left.
  rewrite (updateParam_rearms w) by exact Hw.
  unfold step, commit, handle; simpl.
  rewrite (decide_True (P := clock w + DEBOUNCE_MS <= clock w + quiet)) by lia.
  unfold timer_body, processImage_start; simpl. rewrite Himg; simpl.
  rewrite decide_True by done. by repeat split.
Qed.

Lemma debug_toggle_requests_conversion_witness :
  sent (run loaded_world [UpdateParam k_show_debug true; Elapse 500])
  = [(500, mkClosure (Some image_a) (set_field k_show_debug true DEFAULT_PARAMS))].
Proof.
  destruct (debug_toggle_requests_conversion true 500 loaded_world)
    as (_ & _ & H & _); [exact I | reflexivity | unfold DEBOUNCE_MS; lia |].
  exact H.
Defined.

End IntakeEvents.

(* ===================================================================== *)
(** ** The sanitizer: what each pass does to an occurrence *)
(* ===================================================================== *)

Section Occurrences.

Implicit Types (re : matcher) (a b m s t x y p q rep : string) (c : ascii) (i k n : nat).

(** The scan passes over a match without looking into it. *)
Lemma replace_from_skip_app re rep m b :
  replace_from re rep (String.length m) (m ++ b) = replace_from re rep 0 b.
Proof.
  induction m as [|c m IH]; [reflexivity|].
  rewrite string_app_cons. exact IH.
Qed.

(** The scan up to and over the first match. *)
Lemma replace_all_located re rep a m b :
  (forall i, i < String.length a -> re (sdrop i (a ++ m ++ b)) = None) ->
  re (m ++ b) = Some (String.length m) ->
  m <> EmptyString ->
  replace_all re rep (a ++ m ++ b) = a ++ rep ++ replace_all re rep b.
Proof.
  unfold replace_all. intros Hbefore Hm Hne.
  induction a as [|d a IH].
  - rewrite !string_app_nil_l. destruct m as [|c m]; [done|].
    rewrite string_app_cons in *.
    rewrite (replace_from_match _ _ _ _ _ Hm). by rewrite replace_from_skip_app.
  - rewrite !string_app_cons.
    rewrite replace_from_no_match by (apply (Hbefore 0); simpl; lia).
    rewrite IH; [reflexivity|].
    intros i Hi. apply (Hbefore (S i)). simpl. lia.
Qed.

(** A literal without the character [c] that heads a text followed by
    [c] ends before that [c]. *)
Lemma strip_prefix_before q c x y t :
  avoids c q = true ->
  strip_prefix q (x ++ String c y) = Some t ->
  exists t', strip_prefix q x = Some t'.
Proof.
  revert x t. induction q as [|a q IH]; intros x t Hq; [simpl; eauto|].
  simpl in Hq. apply andb_true_iff in Hq as [Ha Hq]. apply negb_true_iff in Ha.
  destruct x as [|d x].
  - rewrite string_app_nil_l, strip_prefix_cons. by rewrite Ha.
  - rewrite string_app_cons, !strip_prefix_cons.
    destruct (Ascii.eqb a d); [|discriminate]. by apply IH.
Qed.

(** A literal that begins with a character it does not repeat cannot
    begin in a text without it and end in a following occurrence. *)
Lemma lit_no_straddle c q a y i :
  avoids c q = true ->
  has_match (lit (String c q)) a = false ->
  i < String.length a ->
  strip_prefix (String c q) (sdrop i (a ++ String c y)) = None.
Proof.
  intros Hq. revert i. induction a as [|d a IH]; intros i; [simpl; lia|].
  cbn [has_match]. intros [Hhead Hrest]%orb_false_iff Hi.
  destruct i as [|i].
  - cbn [sdrop]. rewrite string_app_cons, strip_prefix_cons.
    destruct (Ascii.eqb c d) eqn:Hcd; [|reflexivity].
    destruct (strip_prefix q (a ++ String c y)) as [t|] eqn:Ht; [|reflexivity].
    destruct (strip_prefix_before _ _ _ _ _ Hq Ht) as [t' Ht'].
    unfold matches, lit in Hhead. rewrite strip_prefix_cons, Hcd, Ht' in Hhead.
    discriminate.
  - rewrite string_app_cons. cbn [sdrop]. apply IH; [exact Hrest | simpl in Hi; lia].
Qed.

Lemma index_of_located p x y :
  (forall i, i < String.length x -> strip_prefix p (sdrop i (x ++ y)) = None) ->
  (exists t, strip_prefix p y = Some t) ->
  index_of p (x ++ y) = Some (String.length x).
Proof.
  intros Hbefore [t Hy]. induction x as [|d x IH].
  - rewrite string_app_nil_l. destruct y; simpl in *; by rewrite Hy.
  - rewrite string_app_cons. cbn [index_of].
    pose proof (Hbefore 0 ltac:(simpl; lia)) as H0. cbn [sdrop] in H0.
    rewrite string_app_cons in H0. rewrite H0.
    rewrite IH; [reflexivity|].
    intros i Hi. apply (Hbefore (S i)). simpl. lia.
Qed.

Lemma quote_at_located v b :
  avoids dquote v = true ->
  quote_at (v ++ String dquote b) = Some (String.length v).
Proof.
  induction v as [|c v IH]; [reflexivity|].
  intros H. cbn [avoids] in H. apply andb_true_iff in H as [Hc Hv].
  apply negb_true_iff in Hc.
  rewrite string_app_cons. cbn [quote_at]. rewrite Hc, IH by exact Hv. reflexivity.
Qed.

(** X16: the prefix pass deletes a located token.  In a text whose part
    before the token has no [ns0:], the token is deleted, what precedes it
    is kept, and the pass goes on with what follows. *)
Theorem strip_ns0_token a b :
  has_match ns0_re a = false ->
  strip_ns0 (a ++ ns0_prefix ++ b) = a ++ strip_ns0 b.
Proof.
  intros Ha. unfold strip_ns0.
  rewrite (replace_all_located ns0_re EmptyString a ns0_prefix b); [reflexivity| | |].
  - intros i Hi. unfold ns0_re, lit.
    change (ns0_prefix ++ b) with (String "n" ("s0:" ++ b)).
    by rewrite (lit_no_straddle "n" "s0:" a _ i eq_refl Ha Hi).
  - unfold ns0_re, lit. by rewrite strip_prefix_app.
  - discriminate.
Qed.

Lemma strip_ns0_token_witness :
  strip_ns0 ("<" ++ ns0_prefix ++ "svg>") = "<" ++ strip_ns0 "svg>".
Proof. apply strip_ns0_token. reflexivity. Defined.

(** X17: the declaration pass deletes a located declaration with its
    value.  In a text whose part before the declaration has no opening of
    one, the opening, the value up to its closing quote and that quote
    are deleted, and the pass goes on with what follows. *)
Theorem strip_xmlns_declaration a value b :
  has_match (lit xmlns_open) a = false ->
  avoids dquote value = true ->
  strip_xmlns (a ++ (xmlns_open ++ value ++ String dquote EmptyString) ++ b)
  = a ++ strip_xmlns b.
Proof.
  intros Ha Hv. unfold strip_xmlns.
  set (m := xmlns_open ++ value ++ String dquote EmptyString).
  assert (Hm : m ++ b = xmlns_open ++ value ++ String dquote b).
  { unfold m. by rewrite !string_app_assoc. }
  rewrite (replace_all_located xmlns_re EmptyString a m b); [reflexivity| | |].
  - intros i Hi. unfold xmlns_re, quoted_after. rewrite Hm.
    change (xmlns_open ++ value ++ String dquote b)
      with (String "x" (("mlns:ns0=" ++ String dquote EmptyString)
                        ++ value ++ String dquote b)).
    by rewrite (lit_no_straddle "x" ("mlns:ns0=" ++ String dquote EmptyString)
                  a _ i eq_refl Ha Hi).
  - unfold xmlns_re, quoted_after. rewrite Hm, strip_prefix_app.
    rewrite quote_at_located by exact Hv.
    unfold m. rewrite !string_length_app. simpl. reflexivity.
  - discriminate.
Qed.

Lemma strip_xmlns_declaration_witness :
  strip_xmlns ("<svg " ++ (xmlns_open ++ "http://www.w3.org/2000/svg"
                           ++ String dquote EmptyString) ++ " width=")
  = "<svg " ++ strip_xmlns " width=".
Proof. apply strip_xmlns_declaration; reflexivity. Defined.

(** X18: the fill pass rewrites a located black fill.  In a text whose
    part before the fill has no black fill, that part is kept, the fill
    becomes white, and the pass goes on with what follows. *)
Theorem recolor_fill a b :
  has_match black_re a = false ->
  recolor (a ++ black_fill ++ b) = a ++ white_fill ++ recolor b.
Proof.
  intros Ha. unfold recolor.
  apply replace_all_located.
  - intros i Hi. unfold black_re, lit.
    rewrite black_fill_chars, string_app_cons.
    unfold black_re in Ha. rewrite black_fill_chars in Ha.
    erewrite lit_no_straddle; [reflexivity | | exact Ha | exact Hi]. reflexivity.
  - unfold black_re, lit. by rewrite strip_prefix_app.
  - discriminate.
Qed.

Lemma recolor_fill_witness :
  recolor ("<g " ++ black_fill ++ ">") = "<g " ++ white_fill ++ recolor ">".
Proof. apply recolor_fill. reflexivity. Defined.

(** X19: the metadata pass deletes a located block.  In a text whose
    part before the block has no opening tag, a block whose body has no
    closing tag is deleted from its opening tag to its closing tag, over
    any line breaks, and the pass goes on with what follows. *)
Theorem strip_metadata_block a body b :
  has_match (lit metadata_open) a = false ->
  has_match (lit metadata_close) body = false ->
  strip_metadata (a ++ (metadata_open ++ body ++ metadata_close) ++ b)
  = a ++ strip_metadata b.
Proof.
  intros Ha Hbody. unfold strip_metadata.
  set (m := metadata_open ++ body ++ metadata_close).
  assert (Hm : m ++ b = metadata_open ++ body ++ metadata_close ++ b).
  { unfold m. by rewrite !string_app_assoc. }
  rewrite (replace_all_located metadata_re EmptyString a m b); [reflexivity| | |].
  - intros i Hi. unfold metadata_re, lazy_between. rewrite Hm.
    change (metadata_open ++ body ++ metadata_close ++ b)
      with (String "<" ("metadata>" ++ body ++ metadata_close ++ b)).
    by rewrite (lit_no_straddle "<" "metadata>" a _ i eq_refl Ha Hi).
  - unfold metadata_re, lazy_between. rewrite Hm, strip_prefix_app.
    rewrite (index_of_located metadata_close body (metadata_close ++ b)).
    + unfold m. rewrite !string_length_app. f_equal; lia.
    + intros i Hi.
      change (metadata_close ++ b) with (String "<" ("/metadata>" ++ b)).
      exact (lit_no_straddle "<" "/metadata>" body _ i eq_refl Hbody Hi).
    + exists b. apply strip_prefix_app.
  - discriminate.
Qed.

Lemma strip_metadata_block_witness :
  strip_metadata ("<svg>" ++ (metadata_open ++ "Created by potrace
" ++ metadata_close) ++ "<g/>")
  = "<svg>" ++ strip_metadata "<g/>".
Proof. apply strip_metadata_block; reflexivity. Defined.

(** X20: the sanitizer never lengthens the markup. *)
Theorem cleanSvgResponse_not_longer s :
  String.length (cleanSvgResponse s) <= String.length s.
Proof.
  unfold cleanSvgResponse; cbv zeta.
  pose proof (strip_length ns0_re s ns0_re_proper) as L1.
  pose proof (strip_length xmlns_re (strip_ns0 s) xmlns_re_proper) as L2.
  pose proof (recolor_length (strip_xmlns (strip_ns0 s))) as L3.
  pose proof (strip_length metadata_re (recolor (strip_xmlns (strip_ns0 s)))
                metadata_re_proper) as L4.
  change (replace_all ns0_re EmptyString s) with (strip_ns0 s) in L1.
  change (replace_all xmlns_re EmptyString (strip_ns0 s))
    with (strip_xmlns (strip_ns0 s)) in L2.
  change (replace_all metadata_re EmptyString ?x) with (strip_metadata x) in L4.
  lia.
Qed.

End Occurrences.
